(** * Inline autoformatting engine (ckeditor5-autoformat)

    A shallow embedding of [src/inlineautoformatediting.js]: the default
    regular-expression test callback, the conversion of its output to model
    ranges, and the handler registered on the document's [change] event.

    The host editor (document model, schema, writer, differ, selection) and
    the JavaScript [RegExp] built-in are collaborators of the engine.  They
    appear here as data read by the handler, as functions the handler is
    given, and as a trace of the calls the handler makes on them. *)

From Stdlib Require Import List String Ascii ZArith Arith Bool Lia Sorted.
Import ListNotations.

Local Open Scope string_scope.
Local Open Scope Z_scope.

(** ** JavaScript completions

    A call either returns a value, throws, or has not finished within the
    number of loop iterations it was given ([while] loops are bounded by a
    fuel argument). *)

Inductive Error : Type :=
| TypeError.

Inductive Completion (A : Type) : Type :=
| Returned (a : A)
| Thrown (e : Error)
| Exhausted.

Arguments Returned {A} a.
Arguments Thrown {A} e.
Arguments Exhausted {A}.

Definition is_returned {A : Type} (c : Completion A) : bool :=
  match c with
  | Returned _ => true
  | _ => false
  end.

(** [s.length] as an integer offset. *)
Definition len (s : string) : Z := Z.of_nat (String.length s).

(** ** The [RegExp] object

    [re_search text i] stands for the built-in matcher of the pattern: the
    leftmost match that starts at an index [>= i], as its start index, the
    matched substring and the captures by group number ([None] is a group
    that did not take part in the match, [undefined] in JavaScript).
    [re_ngroups] is the number of capture groups of the pattern and
    [re_global] the [g] flag.  The [lastIndex] property is the only mutable
    part of the object; it is threaded through [exec] explicitly. *)

Record RegExp : Type := {
  re_search : string -> nat -> option (nat * string * (nat -> option string));
  re_ngroups : nat;
  re_global : bool
}.

(** The array returned by [exec]: [result.index], [result[0]] and
    [result[1]], [result[2]], ...; [result.length] is one more than the
    number of capture groups of the pattern. *)

Record MatchArray : Type := {
  index : nat;
  full : string;
  groups : list (option string)
}.

Definition result_length (result : MatchArray) : nat :=
  S (List.length (groups result)).

(** [result[n]] for [n >= 1]; an index past the end reads [undefined]. *)
Definition group (result : MatchArray) (n : nat) : option string :=
  match n with
  | O => Some (full result)
  | S n' => nth n' (groups result) None
  end.

(** [regExp.exec( text )] (RegExpBuiltinExec): a global expression starts at
    [lastIndex], stores the end of the match there, and resets it to 0 when
    nothing matches; a non-global one starts at 0 and leaves [lastIndex]
    alone.  The sticky flag is not modelled. *)
Definition exec (regExp : RegExp) (lastIndex : nat) (text : string)
  : option MatchArray * nat :=
  let start := if re_global regExp then lastIndex else O in
  let failure := (None, if re_global regExp then O else lastIndex) in
  if (String.length text <? start)%nat then failure
  else
    match re_search regExp text start with
    | None => failure
    | Some (i, matched, captures) =>
        (Some {| index := i;
                 full := matched;
                 groups := map captures (seq 1 (re_ngroups regExp)) |},
         if re_global regExp then (i + String.length matched)%nat
         else lastIndex)
    end.

(** ** A matcher for concrete patterns

    A backtracking matcher for the fragment of regular expressions that the
    call sites and the tests of the engine use: literals, [.], negated
    classes, capture groups, alternatives, [?], the lazy [+?] and [$].  It
    gives the concrete [RegExp] objects of the examples; the general
    theorems are stated for any [RegExp]. *)

Module Pattern.

Inductive t : Type :=
| Empty
| Char (c : ascii)
| Dot
| NoneOf (cs : list ascii)
| Seq (p q : t)
| Alt (p q : t)
| Group (n : nat) (p : t)
| Optional (p : t)
| LazyPlus (p : t)
| AtEnd.

(** Captured text by group number, most recent first. *)
Definition Captures : Type := list (nat * string).

Definition Cont : Type := nat -> Captures -> option (nat * Captures).

Definition is_line_terminator (c : ascii) : bool :=
  (Ascii.eqb c "010" || Ascii.eqb c "013")%char.

Definition step (ok : ascii -> bool) (s : string) (i : nat)
           (caps : Captures) (k : Cont) : option (nat * Captures) :=
  match String.get i s with
  | Some c => if ok c then k (S i) caps else None
  | None => None
  end.

(** The iterations of a lazy [+?]: each must consume something; after each
    the rest of the pattern is tried before another iteration. *)
Fixpoint iterate (body : nat -> Captures -> Cont -> option (nat * Captures))
         (k : Cont) (fuel i : nat) (caps : Captures) {struct fuel}
  : option (nat * Captures) :=
  match fuel with
  | O => None
  | S fuel' =>
      body i caps
           (fun j caps' =>
              if (j <=? i)%nat then None
              else
                match k j caps' with
                | Some r => Some r
                | None => iterate body k fuel' j caps'
                end)
  end.

Fixpoint run (p : t) (s : string) (i : nat) (caps : Captures) (k : Cont)
         {struct p} : option (nat * Captures) :=
  match p with
  | Empty => k i caps
  | Char c => step (Ascii.eqb c) s i caps k
  | Dot => step (fun c => negb (is_line_terminator c)) s i caps k
  | NoneOf cs => step (fun c => negb (existsb (Ascii.eqb c) cs)) s i caps k
  | Seq p1 p2 => run p1 s i caps (fun j caps' => run p2 s j caps' k)
  | Alt p1 p2 =>
      match run p1 s i caps k with
      | Some r => Some r
      | None => run p2 s i caps k
      end
  | Group n p1 =>
      run p1 s i caps
          (fun j caps' => k j ((n, substring i (j - i) s) :: caps'))
  | Optional p1 =>
      match run p1 s i caps k with
      | Some r => Some r
      | None => k i caps
      end
  | LazyPlus p1 => iterate (run p1 s) k (S (String.length s)) i caps
  | AtEnd => if (i =? String.length s)%nat then k i caps else None
  end.

Fixpoint search_from (p : t) (s : string) (left i : nat)
  : option (nat * string * Captures) :=
  match run p s i [] (fun j caps => Some (j, caps)) with
  | Some (j, caps) => Some (i, substring i (j - i) s, caps)
  | None =>
      match left with
      | O => None
      | S left' => search_from p s left' (S i)
      end
  end.

Fixpoint lookup (caps : Captures) (n : nat) : option string :=
  match caps with
  | [] => None
  | (m, v) :: caps' => if (m =? n)%nat then Some v else lookup caps' n
  end.

Fixpoint ngroups (p : t) : nat :=
  match p with
  | Seq p1 p2 | Alt p1 p2 => (ngroups p1 + ngroups p2)%nat
  | Group _ p1 => S (ngroups p1)
  | Optional p1 | LazyPlus p1 => ngroups p1
  | _ => O
  end.

(** Patterns that cannot match the empty string. *)
Fixpoint consumes (p : t) : bool :=
  match p with
  | Char _ | Dot | NoneOf _ | LazyPlus _ => true
  | Seq p1 p2 => consumes p1 || consumes p2
  | Alt p1 p2 => consumes p1 && consumes p2
  | Group _ p1 => consumes p1
  | Empty | Optional _ | AtEnd => false
  end.

(** The object a literal [/p/g] (or [/p/]) evaluates to. *)
Definition regexp (p : t) (global : bool) : RegExp :=
  {| re_search := fun s i =>
       match search_from p s (String.length s - i) i with
       | Some (j, matched, caps) => Some (j, matched, lookup caps)
       | None => None
       end;
     re_ngroups := ngroups p;
     re_global := global |}.

Definition star : t := Char "*".

(** [/([*])(.+?)([*])/g], the tests' pattern with the escaped asterisk
    written as a class. *)
Definition italic : RegExp :=
  regexp (Seq (Group 1 star) (Seq (Group 2 (LazyPlus Dot)) (Group 3 star)))
         true.

(** [/([*])(.+?)[*]/g], from the tests: two capture groups only. *)
Definition two_groups : RegExp :=
  regexp (Seq (Group 1 star) (Seq (Group 2 (LazyPlus Dot)) star)) true.

(** [/([*][*])([^*]+?)([*][*])$/g], from the constructor's documentation. *)
Definition bold : RegExp :=
  regexp (Seq (Group 1 (Seq star star))
              (Seq (Group 2 (LazyPlus (NoneOf ["*"%char])))
                   (Seq (Group 3 (Seq star star)) AtEnd)))
         true.

(** [/ (_)(.+?)(_)/g]: a space, matched outside the capture groups, before
    the opening delimiter. *)
Definition underscore : RegExp :=
  regexp (Seq (Char " ")
              (Seq (Group 1 (Char "_"))
                   (Seq (Group 2 (LazyPlus Dot)) (Group 3 (Char "_")))))
         true.

(** [/([*])?(a)([*])/g]: three capture groups, the first of them
    optional. *)
Definition optional_open : RegExp :=
  regexp (Seq (Optional (Group 1 star))
              (Seq (Group 2 (Char "a")) (Group 3 star)))
         true.

End Pattern.

(** ** Output of a test callback

    [{ remove: [ [ 0, 1 ], [ 5, 6 ] ], format: [ [ 1, 5 ] ] }]: two arrays of
    arrays of offsets.  An inner array is a list of entries; reading an entry
    that is [undefined], or an index past the end of the array, gives
    [None]. *)

Definition Pair : Type := list (option Z).

Definition at_index (array : Pair) (i : nat) : option Z := nth i array None.

Record TestOutput : Type := {
  remove : list Pair;
  format : list Pair
}.

(** ** The default test callback (constructor, lines 86-128)

    The body of the [while] loop over [regExp.exec( text )], with the two
    arrays collected so far.  Reading [.length] of a capture that is
    [undefined] (lines 111, 114, 115) raises a [TypeError] before anything is
    pushed for that match.  The second component of the result is the
    [lastIndex] the shared [regExp] is left with. *)

Fixpoint scan (regExp : RegExp) (text : string) (fuel lastIndex : nat)
         (remove format : list Pair) {struct fuel}
  : Completion TestOutput * nat :=
  match fuel with
  | O => (Exhausted, lastIndex)
  | S fuel' =>
      match exec regExp lastIndex text with
      | (None, lastIndex') =>
          (Returned {| remove := remove; format := format |}, lastIndex')
      | (Some result, lastIndex') =>
          (* There should be full match and 3 capture groups. *)
          if (result_length result <? 4)%nat then
            (Returned {| remove := remove; format := format |}, lastIndex')
          else
            match group result 1, group result 2, group result 3 with
            | Some leftDel, Some content, Some rightDel =>
                let found := (leftDel ++ content) ++ rightDel in
                let index :=
                  Z.of_nat (index result) + (len (full result) - len found) in
                let delStart := [Some index; Some (index + len leftDel)] in
                let delEnd :=
                  [Some (index + len leftDel + len content);
                   Some (index + len leftDel + len content + len rightDel)] in
                scan regExp text fuel' lastIndex'
                     (remove ++ [delStart; delEnd])
                     (format ++ [[Some (index + len leftDel);
                                  Some (index + len leftDel + len content)]])
            | _, _, _ => (Thrown TypeError, lastIndex')
            end
      end
  end.

Definition defaultTestCallback (regExp : RegExp) (fuel : nat) (text : string)
           (lastIndex : nat) : Completion TestOutput * nat :=
  scan regExp text fuel lastIndex [] [].

(** ** The model the handler reads and writes *)

(** Children of a block: text nodes carry [data]; any other inline node has
    no [data] property. *)
Inductive Node : Type :=
| TextNode (data : string)
| InlineElement (name : string).

Record Block : Type := {
  block_name : string;
  getChildren : list Node
}.

(** [model.createPositionAt( block, offset )] and
    [model.createRange( start, end )]. *)
Record Position : Type := createPositionAt {
  parent : Block;
  offset : Z
}.

Record Range : Type := createRange {
  range_start : Position;
  range_end : Position
}.

Record Selection : Type := {
  isCollapsed : bool;
  focus : Position
}.

(** An entry of [differ.getChanges()]. *)
Record DiffItem : Type := {
  entry_type : string;
  entry_name : string;
  entry_length : Z
}.

Record Batch : Type := {
  batch_type : string
}.

(** What the handler reads from [editor.model]: the selection, the changes of
    the differ and the schema's query for the ranges on which an attribute is
    allowed. *)
Record Editor : Type := {
  selection : Selection;
  getChanges : list DiffItem;
  getValidRanges : list Range -> option string -> list Range
}.

Module Writer.
(** Calls on the [writer] of a change block; an attribute key of [None] is
    [undefined]. *)
Inductive call : Type :=
| setAttribute (key : option string) (value : bool) (range : Range)
| removeSelectionAttribute (key : option string)
| remove (range : Range).
End Writer.

(** The calls the handler makes on its collaborators, in order:
    [testCallback( text )], [model.enqueueChange], [schema.getValidRanges],
    [formatCallback( writer, validRanges )] with the calls the callback makes
    on the writer, and the handler's own [writer.remove( range )]. *)
Inductive Call : Type :=
| CallTest (text : string)
| CallEnqueueChange
| CallGetValidRanges (ranges : list Range) (attribute : option string)
| CallFormat (validRanges : list Range) (writes : list Writer.call)
| CallRemove (range : Range).

(** [getText( element )] (lines 192-194): [a + b.data] over the children,
    where [b.data] of a node without data is [undefined]. *)
Definition getText (element : Block) : string :=
  fold_left
    (fun a b =>
       match b with
       | TextNode data => a ++ data
       | InlineElement _ => a ++ "undefined"
       end)
    (getChildren element) "".

(** [s.slice( 0, e )]: a negative end counts from the end of the string. *)
Definition slice0 (s : string) (e : Z) : string :=
  if e <? 0 then substring 0 (Z.to_nat (len s + e)) s
  else substring 0 (Z.to_nat e) s.

(** [testOutputToRanges( block, arrays, model )] (lines 203-209).  The
    arrays that pass the filter have both entries; the [0] of the [None]
    branches below is never read. *)
Definition testOutputToRanges (block : Block) (arrays : list Pair)
  : list Range :=
  map
    (fun array =>
       createRange
         (createPositionAt block
            (match at_index array 0 with Some a => a | None => 0 end))
         (createPositionAt block
            (match at_index array 1 with Some b => b | None => 0 end)))
    (filter
       (fun array =>
          match at_index array 0, at_index array 1 with
          | Some _, Some _ => true
          | _, _ => false
          end)
       arrays).

(** ** The engine

    The two duck-typed constructor arguments.  A custom test callback is a
    function of the text; a custom format callback is given by the calls it
    makes on the writer for the valid ranges it receives. *)

Inductive TestSource : Type :=
| TestRegExp (regExp : RegExp)
| TestFunction (f : string -> TestOutput).

Inductive FormatTarget : Type :=
| AttributeName (key : string)
| FormatFunction (f : list Range -> list Writer.call).

(** The variables the constructor closes over (lines 68-139).  The test
    callback takes the fuel of its loop and the [lastIndex] of the shared
    [regExp], and gives back the [lastIndex] it leaves. *)
Record Engine : Type := {
  regExp : option RegExp;
  attributeKey : option string;
  testCallback : nat -> string -> nat -> Completion TestOutput * nat;
  formatCallback : list Range -> list Writer.call
}.

Definition constructor (testRegexpOrCallback : TestSource)
           (attributeOrCallback : FormatTarget) : Engine :=
  let regExp :=
    match testRegexpOrCallback with
    | TestRegExp r => Some r
    | TestFunction _ => None
    end in
  let attributeKey :=
    match attributeOrCallback with
    | AttributeName key => Some key
    | FormatFunction _ => None
    end in
  {| regExp := regExp;
     attributeKey := attributeKey;
     testCallback :=
       match testRegexpOrCallback with
       | TestFunction f => fun _ text lastIndex => (Returned (f text), lastIndex)
       | TestRegExp r => defaultTestCallback r
       end;
     formatCallback :=
       match attributeOrCallback with
       | FormatFunction f => f
       | AttributeName _ =>
           fun validRanges =>
             (map (Writer.setAttribute attributeKey true) validRanges
                  ++ [Writer.removeSelectionAttribute attributeKey])%list
       end |}.

(** What one run of the handler did: the calls it made, how it completed,
    and the [lastIndex] of the shared [regExp] afterwards. *)
Record Run : Type := {
  calls : list Call;
  completion : Completion unit;
  lastIndex_after : nat
}.

(** The block of the caret and the text from its start to the caret
    (lines 161-162). *)
Definition caretBlock (editor : Editor) : Block :=
  parent (focus (selection editor)).

Definition leadingText (editor : Editor) : string :=
  slice0 (getText (caretBlock editor)) (offset (focus (selection editor))).

(** The body of [enqueueChange( writer => ... )] (lines 172-182). *)
Definition enqueued (engine : Engine) (editor : Editor)
           (rangesToFormat rangesToRemove : list Range) : list Call :=
  let validRanges := getValidRanges editor rangesToFormat (attributeKey engine) in
  ([CallGetValidRanges rangesToFormat (attributeKey engine);
    CallFormat validRanges (formatCallback engine validRanges)]
     ++ map CallRemove (rev rangesToRemove))%list.

(** The handler once the change has passed the filter (lines 161-182). *)
Definition autoformat (engine : Engine) (editor : Editor)
           (fuel lastIndex : nat) : Run :=
  let block := caretBlock editor in
  let text := leadingText editor in
  match testCallback engine fuel text lastIndex with
  | (Returned testOutput, lastIndex') =>
      let rangesToFormat := testOutputToRanges block (format testOutput) in
      let rangesToRemove := testOutputToRanges block (remove testOutput) in
      if negb (negb (List.length rangesToFormat =? 0)%nat
               && negb (List.length rangesToRemove =? 0)%nat)
      then
        {| calls := [CallTest text];
           completion := Returned tt;
           lastIndex_after := lastIndex' |}
      else
        {| calls :=
             CallTest text :: CallEnqueueChange
               :: enqueued engine editor rangesToFormat rangesToRemove;
           completion := Returned tt;
           lastIndex_after := lastIndex' |}
  | (Thrown e, lastIndex') =>
      {| calls := [CallTest text];
         completion := Thrown e;
         lastIndex_after := lastIndex' |}
  | (Exhausted, lastIndex') =>
      {| calls := [CallTest text];
         completion := Exhausted;
         lastIndex_after := lastIndex' |}
  end.

(** The listener on the document's [change] event (lines 141-183). *)
Definition onChange (engine : Engine) (editor : Editor) (fuel lastIndex : nat)
           (batch : Batch) : Run :=
  let ignored :=
    {| calls := []; completion := Returned tt; lastIndex_after := lastIndex |} in
  if String.eqb (batch_type batch) "transparent" then ignored
  else
    if negb (isCollapsed (selection editor)) then ignored
    else
      let changes := getChanges editor in
      if negb (List.length changes =? 1)%nat
         || match changes with
            | entry :: _ =>
                negb (String.eqb (entry_type entry) "insert")
                || negb (String.eqb (entry_name entry) "$text")
                || negb (entry_length entry =? 1)
            | [] => true
            end
      then ignored
      else autoformat engine editor fuel lastIndex.

(** *** What a run leaves behind *)

Definition is_enqueue (c : Call) : bool :=
  match c with CallEnqueueChange => true | _ => false end.

Definition is_format (c : Call) : bool :=
  match c with CallFormat _ _ => true | _ => false end.

(** The number of change blocks the run enqueued. *)
Definition transactions (cs : list Call) : nat :=
  List.length (filter is_enqueue cs).

(** The ranges the handler deleted, in the order of its [writer.remove]
    calls. *)
Definition removed (cs : list Call) : list Range :=
  flat_map (fun c => match c with CallRemove range => [range] | _ => [] end) cs.

(** The document after a run, for any document type and any meaning of the
    writer's calls: only the writer changes the document. *)
Definition document_after {Doc : Type} (apply : Doc -> Writer.call -> Doc)
           (doc : Doc) (cs : list Call) : Doc :=
  fold_left
    (fun d c =>
       match c with
       | CallFormat _ writes => fold_left apply writes d
       | CallRemove range => apply d (Writer.remove range)
       | _ => d
       end)
    cs doc.

(** Start offsets of a list of ranges, and their order. *)
Definition start_offsets (ranges : list Range) : list Z :=
  map (fun range => offset (range_start range)) ranges.

Fixpoint ascending (l : list Z) : bool :=
  match l with
  | a :: (b :: _) as l' => (a <=? b) && ascending l'
  | _ => true
  end.

Fixpoint descending (l : list Z) : bool :=
  match l with
  | a :: (b :: _) as l' => (b <=? a) && descending l'
  | _ => true
  end.

(** Successive invocations of the default test callback on the same
    [regExp] object: each starts with the [lastIndex] the one before left. *)
Fixpoint invocations (regExp : RegExp) (fuel : nat) (texts : list string)
         (lastIndex : nat) : list (Completion TestOutput) * nat :=
  match texts with
  | [] => ([], lastIndex)
  | text :: texts' =>
      let (c, lastIndex') := defaultTestCallback regExp fuel text lastIndex in
      let (cs, final) := invocations regExp fuel texts' lastIndex' in
      (c :: cs, final)
  end.

(** *** Concrete events used by the examples *)

Definition paragraph (text : string) : Block :=
  {| block_name := "paragraph"; getChildren := [TextNode text] |}.

(** The state after typing one character that leaves [text] before the
    caret of a paragraph. *)
Definition typed (text : string)
           (getValidRanges : list Range -> option string -> list Range) : Editor :=
  {| selection :=
       {| isCollapsed := true;
          focus := createPositionAt (paragraph text) (len text) |};
     getChanges :=
       [{| entry_type := "insert"; entry_name := "$text"; entry_length := 1 |}];
     getValidRanges := getValidRanges |}.

(** A schema that allows the attribute everywhere, and one that allows it
    nowhere. *)
Definition allowed_everywhere (ranges : list Range) (_ : option string)
  : list Range := ranges.

Definition allowed_nowhere (_ : list Range) (_ : option string)
  : list Range := [].

Definition default_batch : Batch := {| batch_type := "default" |}.

Definition transparent_batch : Batch := {| batch_type := "transparent" |}.

(** A range of offsets inside a paragraph. *)
Definition span (text : string) (a b : Z) : Range :=
  createRange (createPositionAt (paragraph text) a)
              (createPositionAt (paragraph text) b).

(** ** Vocabulary of the specification *)

(** The successive results of [regExp.exec( text )] starting from a given
    [lastIndex], up to the first [null], and the [lastIndex] left by that
    last call. *)
Inductive Matches (regExp : RegExp) (text : string)
  : nat -> list MatchArray -> nat -> Prop :=
| Matches_null : forall lastIndex final,
    exec regExp lastIndex text = (None, final) ->
    Matches regExp text lastIndex [] final
| Matches_next : forall lastIndex result lastIndex' results final,
    exec regExp lastIndex text = (Some result, lastIndex') ->
    Matches regExp text lastIndex' results final ->
    Matches regExp text lastIndex (result :: results) final.

(** What the specification asks for one match: with [found] the three
    groups put together, the true start is the raw index plus the length of
    the full match minus the length of [found]; two [remove] pairs span
    groups 1 and 3 and one [format] pair spans group 2. *)
Inductive Emits (result : MatchArray) : list Pair -> list Pair -> Prop :=
| Emits_triple : forall group1 group2 group3 start,
    group result 1 = Some group1 ->
    group result 2 = Some group2 ->
    group result 3 = Some group3 ->
    start = Z.of_nat (index result)
            + (len (full result) - len (group1 ++ group2 ++ group3)) ->
    Emits result
          [[Some start; Some (start + len group1)];
           [Some (start + len group1 + len group2);
            Some (start + len group1 + len group2 + len group3)]]
          [[Some (start + len group1);
            Some (start + len group1 + len group2)]].

(** The pairs of all matches, accumulated in the order of the matches. *)
Inductive Accumulated : list MatchArray -> list Pair -> list Pair -> Prop :=
| Accumulated_nil : Accumulated [] [] []
| Accumulated_cons : forall result results remove1 format1 remove format,
    Emits result remove1 format1 ->
    Accumulated results remove format ->
    Accumulated (result :: results)
                (remove1 ++ remove)%list (format1 ++ format)%list.

(** The change filter in the words of the specification. *)
Definition single_character_typed (changes : list DiffItem) : Prop :=
  exists entry,
    changes = [entry]
    /\ entry_type entry = "insert"
    /\ entry_name entry = "$text"
    /\ entry_length entry = 1.

Definition qualifies (editor : Editor) (batch : Batch) : Prop :=
  batch_type batch <> "transparent"
  /\ isCollapsed (selection editor) = true
  /\ single_character_typed (getChanges editor).

(** A [lastIndex] that cannot change what the default test callback
    returns. *)
Definition settled (regExp : RegExp) (lastIndex : nat) : Prop :=
  lastIndex = O \/ re_global regExp = false \/ (re_ngroups regExp < 3)%nat.

(** A matcher whose matches start at or after the index asked for, are not
    empty, and end inside the text. *)
Definition advances (regExp : RegExp) (text : string) : Prop :=
  forall i j matched captures,
    (i <= String.length text)%nat ->
    re_search regExp text i = Some (j, matched, captures) ->
    (i <= j /\ 0 < String.length matched
     /\ j + String.length matched <= String.length text)%nat.

(** ** Vocabulary of the further properties *)

(** The shape of what the default test callback collects: for every format
    pair [[a, b]] the remove array holds, in the same place, the two pairs
    [[s, a]] and [[b, e]] that touch it, with [s <= a <= b <= e]. *)
Inductive Bracketed : list Pair -> list Pair -> Prop :=
| Bracketed_nil : Bracketed [] []
| Bracketed_cons : forall s a b e remove format,
    s <= a -> a <= b -> b <= e ->
    Bracketed remove format ->
    Bracketed ([Some s; Some a] :: [Some b; Some e] :: remove)
              ([Some a; Some b] :: format).

(** A range of offsets that lies inside a text of the given length, start
    before end. *)
Definition inside (text : string) (range : Range) : Prop :=
  0 <= offset (range_start range)
  /\ offset (range_start range) <= offset (range_end range)
  /\ offset (range_end range) <= len text.

(** A range inside the text that ends at or before an index. *)
Definition upto (text : string) (bound : nat) (range : Range) : Prop :=
  inside text range /\ offset (range_end range) <= Z.of_nat bound.

(** Both positions of a range are positions in the given block. *)
Definition within (block : Block) (range : Range) : Prop :=
  parent (range_start range) = block /\ parent (range_end range) = block.

(** A matcher whose matches start at or after the index asked for and end
    inside the text, and whose first three groups are together no longer
    than the match (groups that follow one another inside the match). *)
Definition fits (regExp : RegExp) (text : string) : Prop :=
  forall i j matched captures group1 group2 group3,
    (i <= String.length text)%nat ->
    re_search regExp text i = Some (j, matched, captures) ->
    captures 1%nat = Some group1 ->
    captures 2%nat = Some group2 ->
    captures 3%nat = Some group3 ->
    (i <= j
     /\ j + String.length matched <= String.length text
     /\ String.length group1 + String.length group2 + String.length group3
        <= String.length matched)%nat.

(** The ranges the handler passed to the schema and to the format callback,
    and the calls the format callback made on the writer. *)
Definition queried (cs : list Call) : list Range :=
  flat_map
    (fun c => match c with CallGetValidRanges ranges _ => ranges | _ => [] end)
    cs.

Definition written (cs : list Call) : list Writer.call :=
  flat_map (fun c => match c with CallFormat _ writes => writes | _ => [] end)
           cs.

(** A block with the given children. *)
Definition block_of (children : list Node) : Block :=
  {| block_name := "paragraph"; getChildren := children |}.

Definition is_clear (w : Writer.call) : bool :=
  match w with Writer.removeSelectionAttribute _ => true | _ => false end.


(** [/()()()/g]: three groups that capture the empty string. *)
Definition empty_groups : RegExp :=
  Pattern.regexp
    (Pattern.Seq (Pattern.Group 1 Pattern.Empty)
       (Pattern.Seq (Pattern.Group 2 Pattern.Empty)
                    (Pattern.Group 3 Pattern.Empty)))
    true.

(** The state after typing one character at the end of a paragraph that
    holds text, an inline element and more text: the offset of the caret
    counts the inline element as one. *)
Definition typed_after_inline (before after : string) : Editor :=
  let block := block_of [TextNode before; InlineElement "softBreak";
                         TextNode after] in
  {| selection :=
       {| isCollapsed := true;
          focus := createPositionAt block (len before + 1 + len after) |};
     getChanges :=
       [{| entry_type := "insert"; entry_name := "$text"; entry_length := 1 |}];
     getValidRanges := allowed_everywhere |}.

(** * Properties *)

(** ** The default test callback *)

Lemma len_append (a b : string) : len (a ++ b) = len a + len b.
Proof.
  unfold len. rewrite <- Nat2Z.inj_add. f_equal.
  induction a as [|c a IH]; simpl; [reflexivity | now rewrite IH].
Qed.

Lemma len_found (a b c : string) :
  len ((a ++ b) ++ c) = len a + len b + len c.
Proof. now rewrite !len_append. Qed.

Lemma group_present_length (result : MatchArray) (g : string) :
  group result 3 = Some g -> (result_length result <? 4)%nat = false.
Proof.
  unfold group, result_length. intros H.
  apply Nat.ltb_ge.
  destruct (groups result) as [|a [|b [|c l]]]; simpl in *; try discriminate.
  lia.
Qed.

Lemma scan_step_emits (regExp : RegExp) (text : string) (fuel lastIndex : nat)
      (result : MatchArray) (lastIndex' : nat) (remove1 format1 : list Pair)
      (remove format : list Pair) :
  exec regExp lastIndex text = (Some result, lastIndex') ->
  Emits result remove1 format1 ->
  scan regExp text (S fuel) lastIndex remove format
  = scan regExp text fuel lastIndex'
         (remove ++ remove1)%list (format ++ format1)%list.
Proof.
  intros Hexec Hemit. cbn [scan]. rewrite Hexec.
  destruct Hemit as [g1 g2 g3 start H1 H2 H3 Hstart].
  rewrite (group_present_length _ _ H3), H1, H2, H3.
  rewrite len_found, <- Z.add_assoc, <- !len_append, <- Hstart. reflexivity.
Qed.

Lemma scan_accumulates (regExp : RegExp) (text : string) :
  forall lastIndex results final,
    Matches regExp text lastIndex results final ->
    forall emitted_remove emitted_format,
      Accumulated results emitted_remove emitted_format ->
      forall fuel remove format,
        (List.length results < fuel)%nat ->
        scan regExp text fuel lastIndex remove format
        = (Returned {| remove := (remove ++ emitted_remove)%list;
                       format := (format ++ emitted_format)%list |},
           final).
Proof.
  induction 1 as [lastIndex final Hexec
                 | lastIndex result lastIndex' results final Hexec _ IH];
    intros er ef Hacc fuel rm fm Hfuel.
  - inversion Hacc; subst.
    destruct fuel as [|fuel]; [simpl in Hfuel; lia|].
    cbn [scan]. rewrite Hexec, !app_nil_r. reflexivity.
  - inversion Hacc as [|? ? r1 f1 rs fs Hemit Hrest]; subst.
    destruct fuel as [|fuel]; [simpl in Hfuel; lia|].
    rewrite (scan_step_emits _ _ _ _ _ _ _ _ _ _ Hexec Hemit).
    rewrite (IH _ _ Hrest fuel); [|simpl in Hfuel; lia].
    now rewrite <- !app_assoc.
Qed.

(** C1.  For every text and every finite run of successive matches of the
    regular expression in which groups 1, 2 and 3 are captured, the default
    test callback returns, and what it returns is exactly the accumulation,
    match by match, of: the true start (raw index plus full-match length
    minus the length of the three groups together), two remove pairs
    spanning group 1 and group 3, and one format pair spanning group 2. *)
Theorem default_test_emits_delimiters_and_content
        (regExp : RegExp) (text : string) (fuel lastIndex : nat)
        (results : list MatchArray) (final : nat)
        (remove format : list Pair) :
  Matches regExp text lastIndex results final ->
  Accumulated results remove format ->
  (List.length results < fuel)%nat ->
  defaultTestCallback regExp fuel text lastIndex
  = (Returned {| remove := remove; format := format |}, final).
Proof.
  intros Hm Hacc Hfuel. unfold defaultTestCallback.
  now rewrite (scan_accumulates _ _ _ _ _ Hm _ _ Hacc fuel [] [] Hfuel).
Qed.

Lemma default_test_emits_delimiters_and_content_witness :
  defaultTestCallback Pattern.underscore 2 "x _ab_ y" 0
  = (Returned {| remove := [[Some 2; Some 3]; [Some 5; Some 6]];
                 format := [[Some 3; Some 5]] |}, O).
Proof.
  pose (result := {| index := 1; full := " _ab_";
                     groups := [Some "_"; Some "ab"; Some "_"] |}).
  apply (default_test_emits_delimiters_and_content
           Pattern.underscore "x _ab_ y" 2 0 [result] 0).
  - apply (Matches_next _ _ O result 6%nat [] O); [reflexivity|].
    apply Matches_null. reflexivity.
  - apply (Accumulated_cons result []
             [[Some 2; Some 3]; [Some 5; Some 6]] [[Some 3; Some 5]] [] []).
    + apply (Emits_triple result "_" "ab" "_" 2); reflexivity.
    + apply Accumulated_nil.
  - simpl. lia.
Defined.

(** A global expression whose matches are never empty is exhausted after at
    most one call of [exec] per character: the loop of the default test
    callback ends, by [null], by the guard on the number of groups, or by an
    exception. *)
Lemma scan_finishes (regExp : RegExp) (text : string) :
  re_global regExp = true ->
  advances regExp text ->
  forall fuel lastIndex remove format,
    (S (String.length text) - lastIndex < fuel)%nat ->
    fst (scan regExp text fuel lastIndex remove format) <> Exhausted.
Proof.
  intros Hg Hadv.
  induction fuel as [|fuel IH]; intros li rm fm Hfuel; [lia|].
  cbn [scan]. unfold exec. rewrite Hg.
  destruct (String.length text <? li)%nat eqn:Hlen; [discriminate|].
  apply Nat.ltb_ge in Hlen.
  destruct (re_search regExp text li) as [[[j matched] captures]|] eqn:Hs;
    [|discriminate].
  destruct (Hadv _ _ _ _ Hlen Hs) as (Hij & Hpos & Hend).
  match goal with |- context [if ?b then _ else _] => destruct b end;
    [discriminate|].
  cbn [group groups].
  repeat match goal with
         | |- context [match ?o with Some _ => _ | None => _ end] =>
             destruct o; try discriminate
         end.
  apply IH. lia.
Qed.

Lemma default_test_finishes (regExp : RegExp) (text : string)
      (lastIndex : nat) :
  re_global regExp = true ->
  advances regExp text ->
  fst (defaultTestCallback regExp (String.length text + 2) text lastIndex)
  <> Exhausted.
Proof.
  intros Hg Hadv. apply scan_finishes; auto. lia.
Qed.

(** *** The matcher of the examples advances *)

Lemma get_some_lt (s : string) :
  forall i c, String.get i s = Some c -> (i < String.length s)%nat.
Proof.
  induction s as [|a s IH]; intros [|i] c H; simpl in *;
    try discriminate; [lia|].
  apply IH in H. lia.
Qed.

Lemma length_substring (s : string) :
  forall i n,
    (i + n <= String.length s)%nat -> String.length (substring i n s) = n.
Proof.
  induction s as [|a s IH]; intros [|i] [|n] H; simpl in *;
    try reflexivity; try lia.
  - f_equal. apply IH. simpl. lia.
  - apply IH. lia.
  - apply IH. lia.
Qed.

Lemma run_reaches_continuation (s : string) (p : Pattern.t) :
  forall i caps k r,
    (i <= String.length s)%nat ->
    Pattern.run p s i caps k = Some r ->
    exists j caps',
      (i <= j <= String.length s)%nat
      /\ (Pattern.consumes p = true -> (i < j)%nat)
      /\ k j caps' = Some r.
Proof.
  assert (Hstep : forall ok i caps k r,
             Pattern.step ok s i caps k = Some r ->
             exists j caps',
               (i <= j <= String.length s)%nat
               /\ (true = true -> (i < j)%nat)
               /\ k j caps' = Some r).
  { intros ok i caps k r. unfold Pattern.step.
    destruct (String.get i s) as [c|] eqn:Hget; [|discriminate].
    apply get_some_lt in Hget.
    destruct (ok c); [|discriminate].
    intros H. exists (S i), caps. repeat split; auto; lia. }
  induction p as [|c| |cs|p1 IH1 p2 IH2|p1 IH1 p2 IH2|n p1 IH1|p1 IH1|p1 IH1|];
    intros i caps k r Hi H; cbn [Pattern.run Pattern.consumes] in *.
  - exists i, caps. repeat split; auto; try lia; try discriminate.
  - eauto.
  - eauto.
  - eauto.
  - apply IH1 in H as (j1 & caps1 & Hj1 & Hc1 & H); [|exact Hi].
    apply IH2 in H as (j2 & caps2 & Hj2 & Hc2 & H); [|lia].
    exists j2, caps2. repeat split; auto; try lia.
    intros Hc. apply orb_prop in Hc as [Hc|Hc];
      [specialize (Hc1 Hc) | specialize (Hc2 Hc)]; lia.
  - destruct (Pattern.run p1 s i caps k) as [r1|] eqn:H1.
    + injection H as <-.
      apply IH1 in H1 as (j & caps' & Hj & Hc & H1); [|exact Hi].
      exists j, caps'. repeat split; auto; try lia.
      intros Hb. apply andb_prop in Hb as [Hb _]. auto.
    + apply IH2 in H as (j & caps' & Hj & Hc & H); [|exact Hi].
      exists j, caps'. repeat split; auto; try lia.
      intros Hb. apply andb_prop in Hb as [_ Hb]. auto.
  - apply IH1 in H as (j & caps' & Hj & Hc & H); [|exact Hi]. eauto.
  - destruct (Pattern.run p1 s i caps k) as [r1|] eqn:H1.
    + injection H as <-.
      apply IH1 in H1 as (j & caps' & Hj & _ & H1); [|exact Hi].
      exists j, caps'. repeat split; auto; try lia; try discriminate.
    + exists i, caps. repeat split; auto; try lia; try discriminate.
  - revert H. generalize (S (String.length s)). intros fuel.
    revert i caps Hi.
    induction fuel as [|fuel IHfuel]; intros i caps Hi H; [discriminate|].
    cbn [Pattern.iterate] in H.
    apply IH1 in H as (j & caps' & Hj & _ & H); [|exact Hi].
    destruct (Nat.leb_spec j i) as [|Hlt]; [discriminate|].
    destruct (k j caps') as [r1|] eqn:Hk.
    + injection H as <-. exists j, caps'. repeat split; auto; lia.
    + apply IHfuel in H as (j2 & caps2 & Hj2 & Hc2 & H); [|lia].
      exists j2, caps2. repeat split; auto; lia.
  - destruct (Nat.eqb_spec i (String.length s)); [|discriminate].
    exists i, caps. repeat split; auto; try lia; try discriminate.
Qed.

Lemma search_from_advances (p : Pattern.t) (s : string) :
  Pattern.consumes p = true ->
  forall left i j matched caps,
    (i + left <= String.length s)%nat ->
    Pattern.search_from p s left i = Some (j, matched, caps) ->
    (i <= j /\ 0 < String.length matched
     /\ j + String.length matched <= String.length s)%nat.
Proof.
  intros Hc. induction left as [|left IH]; intros i j matched caps Hi H;
    cbn [Pattern.search_from] in H;
    destruct (Pattern.run p s i [] (fun j caps => Some (j, caps)))
      as [[e caps0]|] eqn:Hrun; try discriminate.
  1, 2: apply run_reaches_continuation in Hrun
      as (e' & caps' & He & Hlt & Heq); [|lia];
    specialize (Hlt Hc); injection Heq as -> ->;
    injection H as <- <- _;
    rewrite length_substring by lia; lia.
  apply IH in H; lia.
Qed.

Lemma pattern_advances (p : Pattern.t) (global : bool) (text : string) :
  Pattern.consumes p = true ->
  advances (Pattern.regexp p global) text.
Proof.
  intros Hc i j matched captures Hi. cbn [re_search Pattern.regexp].
  destruct (Pattern.search_from p text (String.length text - i) i)
    as [[[j' matched'] caps]|] eqn:Hs; [|discriminate].
  intros [= <- <- _].
  eapply search_from_advances; [exact Hc | | exact Hs]. lia.
Qed.

(** For the expression of the tests the default test callback ends on every
    text, from every [lastIndex], within one iteration per character and two
    more. *)
Lemma italic_test_finishes (text : string) (lastIndex : nat) :
  fst (defaultTestCallback Pattern.italic (String.length text + 2) text
         lastIndex)
  <> Exhausted.
Proof.
  apply default_test_finishes; [reflexivity|].
  now apply pattern_advances.
Qed.

Lemma exec_result_length (regExp : RegExp) (text : string)
      (lastIndex lastIndex' : nat) (result : MatchArray) :
  exec regExp lastIndex text = (Some result, lastIndex') ->
  result_length result = S (re_ngroups regExp).
Proof.
  unfold exec.
  destruct (String.length text <? _)%nat; [discriminate|].
  destruct (re_search regExp text _) as [[[j matched] captures]|];
    [|discriminate].
  intros H. injection H as <- _.
  unfold result_length. cbn [groups].
  now rewrite length_map, length_seq.
Qed.

Lemma scan_few_groups (regExp : RegExp) (text : string) (fuel lastIndex : nat)
      (remove format : list Pair) :
  (re_ngroups regExp < 3)%nat ->
  fst (scan regExp text (S fuel) lastIndex remove format)
  = Returned {| remove := remove; format := format |}.
Proof.
  intros Hn. cbn [scan].
  destruct (exec regExp lastIndex text) as [[result|] li'] eqn:Hexec;
    [|reflexivity].
  rewrite (exec_result_length _ _ _ _ _ Hexec).
  replace (S (re_ngroups regExp) <? 4)%nat with true; [reflexivity|].
  symmetry. apply Nat.ltb_lt. lia.
Qed.

Lemma testOutputToRanges_nil (block : Block) :
  testOutputToRanges block [] = [].
Proof. reflexivity. Qed.

(** C6 (as amended).  For every text, every [lastIndex] and every regular
    expression with fewer than three capture groups, the default test
    callback stops at its first match without raising an error and returns
    the lists collected so far, which are empty; the handler then enqueues no
    change, formats nothing and removes nothing for that event. *)
Theorem fewer_than_three_groups_stops
        (regExp : RegExp) (fuel lastIndex : nat) :
  (re_ngroups regExp < 3)%nat ->
  (0 < fuel)%nat ->
  (forall text,
      fst (defaultTestCallback regExp fuel text lastIndex)
      = Returned {| remove := []; format := [] |})
  /\ (forall target editor batch,
         let run := onChange (constructor (TestRegExp regExp) target)
                             editor fuel lastIndex batch in
         completion run = Returned tt
         /\ transactions (calls run) = O
         /\ existsb is_format (calls run) = false
         /\ removed (calls run) = []).
Proof.
  intros Hn Hfuel.
  destruct fuel as [|fuel]; [lia|].
  assert (Htest : forall text,
             fst (defaultTestCallback regExp (S fuel) text lastIndex)
             = Returned {| remove := []; format := [] |})
    by (intros; now apply scan_few_groups).
  split; [exact Htest|].
  intros target editor batch. unfold onChange.
  destruct (String.eqb _ _); [now repeat split|].
  destruct (negb _); [now repeat split|].
  destruct (_ || _); [now repeat split|].
  unfold autoformat. cbn [testCallback constructor].
  specialize (Htest (leadingText editor)).
  destruct (defaultTestCallback _ _ _ _) as [c li'].
  cbn [fst] in Htest. subst c. cbn [format remove].
  rewrite testOutputToRanges_nil. now repeat split.
Qed.

Lemma fewer_than_three_groups_stops_witness :
  fst (defaultTestCallback Pattern.two_groups 3 "*foobar*" 0)
  = Returned {| remove := []; format := [] |}
  /\ calls (onChange (constructor (TestRegExp Pattern.two_groups)
                                  (AttributeName "testAttribute"))
                     (typed "*foobar*" allowed_everywhere) 3 0 default_batch)
     = [CallTest "*foobar*"].
Proof.
  assert (Hn : (re_ngroups Pattern.two_groups < 3)%nat) by (simpl; lia).
  assert (Hf : (0 < 3)%nat) by lia.
  destruct (fewer_than_three_groups_stops Pattern.two_groups 3 0 Hn Hf)
    as [Htest _].
  split; [apply Htest | reflexivity].
Defined.

(** C6, as stated, fails: in the match of an expression with three capture
    groups whose first group did not take part, group 1 is not present, and
    the default test callback raises a [TypeError] instead of returning. *)
Lemma missing_group_raises :
  exec Pattern.optional_open 0 "a*"
  = (Some {| index := 0; full := "a*";
             groups := [None; Some "a"; Some "*"] |}, 2%nat)
  /\ defaultTestCallback Pattern.optional_open 3 "a*" 0
     = (Thrown TypeError, 2%nat).
Proof. split; reflexivity. Qed.

(** ** The [lastIndex] shared between invocations *)

Lemma exec_not_global (regExp : RegExp) (text : string) (lastIndex : nat) :
  re_global regExp = false ->
  exec regExp lastIndex text = (fst (exec regExp 0 text), lastIndex).
Proof.
  intros Hg. unfold exec. rewrite Hg. simpl.
  now destruct (re_search regExp text 0) as [[[j matched] captures]|].
Qed.

Lemma scan_not_global (regExp : RegExp) (text : string) :
  re_global regExp = false ->
  forall fuel lastIndex remove format,
    fst (scan regExp text fuel lastIndex remove format)
    = fst (scan regExp text fuel 0 remove format).
Proof.
  intros Hg. induction fuel as [|fuel IH]; intros li rm fm; [reflexivity|].
  cbn [scan].
  assert (Hexec : exists r, exec regExp li text = (r, li)
                            /\ exec regExp 0 text = (r, O))
    by (eexists; split; now apply exec_not_global).
  destruct Hexec as (r & -> & ->).
  destruct r as [result|]; [|reflexivity].
  destruct (result_length result <? 4)%nat; [reflexivity|].
  destruct (group result 1), (group result 2), (group result 3);
    try reflexivity.
  apply IH.
Qed.

Lemma scan_settled (regExp : RegExp) (text : string) (fuel lastIndex : nat)
      (remove format : list Pair) :
  settled regExp lastIndex ->
  fst (scan regExp text fuel lastIndex remove format)
  = fst (scan regExp text fuel 0 remove format).
Proof.
  intros [-> | [Hg | Hn]]; [reflexivity | now apply scan_not_global |].
  destruct fuel as [|fuel]; [reflexivity|].
  now rewrite !scan_few_groups.
Qed.

Lemma exec_null_resets (regExp : RegExp) (text : string)
      (lastIndex final : nat) :
  re_global regExp = true ->
  exec regExp lastIndex text = (None, final) ->
  final = O.
Proof.
  intros Hg. unfold exec. rewrite Hg.
  destruct (String.length text <? lastIndex)%nat.
  - now intros [= <-].
  - destruct (re_search regExp text lastIndex) as [[[j matched] captures]|];
      [discriminate | now intros [= <-]].
Qed.

Lemma scan_returned_settles (regExp : RegExp) (text : string) :
  forall fuel lastIndex remove format output final,
    scan regExp text fuel lastIndex remove format = (Returned output, final) ->
    settled regExp final.
Proof.
  intros fuel li rm fm out final H. unfold settled.
  destruct (re_global regExp) eqn:Hg; [|auto].
  destruct (Nat.ltb_spec (re_ngroups regExp) 3) as [Hn|Hn]; [auto|].
  left.
  revert li rm fm H.
  induction fuel as [|fuel IH]; intros li rm fm H; [discriminate|].
  cbn [scan] in H.
  destruct (exec regExp li text) as [[result|] li'] eqn:Hexec.
  - rewrite (exec_result_length _ _ _ _ _ Hexec) in H.
    replace (S (re_ngroups regExp) <? 4)%nat with false in H
      by (symmetry; apply Nat.ltb_ge; lia).
    destruct (group result 1), (group result 2), (group result 3);
      try discriminate.
    eapply IH; eassumption.
  - injection H as _ <-. eapply exec_null_resets; eassumption.
Qed.

Lemma invocations_settle (regExp : RegExp) (fuel : nat) :
  forall texts lastIndex,
    settled regExp lastIndex ->
    forallb is_returned (fst (invocations regExp fuel texts lastIndex)) = true ->
    settled regExp (snd (invocations regExp fuel texts lastIndex)).
Proof.
  induction texts as [|text texts IH]; intros li Hs Hret; [exact Hs|].
  cbn [invocations] in *.
  destruct (defaultTestCallback regExp fuel text li) as [c li'] eqn:Hc.
  destruct (invocations regExp fuel texts li') as [cs final] eqn:Hcs.
  cbn [fst snd forallb] in *.
  apply andb_prop in Hret as [Hc1 Hrest].
  destruct c as [out| |]; try discriminate.
  specialize (IH li'). rewrite Hcs in IH. apply IH; [|exact Hrest].
  eapply scan_returned_settles. exact Hc.
Qed.

(** C9 (as amended).  The only thing an invocation of the default test
    callback leaves behind is the [lastIndex] of the shared expression, and
    an invocation that returns leaves it where it cannot be seen: after any
    sequence of invocations that all returned (none raised an error or ran on
    without end), an invocation on a text gives what an invocation on that
    text gives on a fresh expression; so two such invocations on one text,
    whatever came between them, give the same result. *)
Theorem default_test_independent_of_history
        (regExp : RegExp) (fuel : nat) (before : list string) (text : string) :
  forallb is_returned (fst (invocations regExp fuel before 0)) = true ->
  fst (defaultTestCallback regExp fuel text
         (snd (invocations regExp fuel before 0)))
  = fst (defaultTestCallback regExp fuel text 0).
Proof.
  intros Hret. unfold defaultTestCallback.
  apply scan_settled.
  apply invocations_settle; [now left | exact Hret].
Qed.

Lemma default_test_independent_of_history_witness :
  fst (defaultTestCallback Pattern.italic 9 "*a* *b*"
         (snd (invocations Pattern.italic 9 ["*foobar*"; "x"; "*a* *b*"] 0)))
  = fst (defaultTestCallback Pattern.italic 9 "*a* *b*" 0).
Proof.
  apply (default_test_independent_of_history
           Pattern.italic 9 ["*foobar*"; "x"; "*a* *b*"] "*a* *b*").
  reflexivity.
Defined.

(** C9, as stated, fails: after an invocation that raised an error the
    shared expression keeps its [lastIndex], and the next two invocations on
    one and the same text return different results. *)
Lemma stale_lastIndex_changes_result :
  invocations Pattern.optional_open 4 ["a*"; "*a*"; "*a*"] 0
  = ([Thrown TypeError;
      Returned {| remove := []; format := [] |};
      Returned {| remove := [[Some 0; Some 1]; [Some 2; Some 3]];
                  format := [[Some 1; Some 2]] |}], O)
  /\ fst (defaultTestCallback Pattern.optional_open 4 "*a*" 2)
     <> fst (defaultTestCallback Pattern.optional_open 4 "*a*" 0).
Proof. split; [reflexivity | discriminate]. Qed.

(** ** The change filter *)

Lemma single_character_typed_dec (changes : list DiffItem) :
  (negb (List.length changes =? 1)%nat
   || match changes with
      | entry :: _ =>
          negb (String.eqb (entry_type entry) "insert")
          || negb (String.eqb (entry_name entry) "$text")
          || negb (entry_length entry =? 1)
      | [] => true
      end) = false
  <-> single_character_typed changes.
Proof.
  unfold single_character_typed. split.
  - destruct changes as [|entry [|entry' rest]]; try discriminate.
    cbn [List.length Nat.eqb negb orb].
    destruct (String.eqb_spec (entry_type entry) "insert");
      [|discriminate].
    destruct (String.eqb_spec (entry_name entry) "$text");
      [|discriminate].
    destruct (Z.eqb_spec (entry_length entry) 1); [|discriminate].
    intros _. now exists entry.
  - intros (entry & -> & Ht & Hn & Hl).
    cbn [List.length Nat.eqb negb orb].
    rewrite Ht, Hn, Hl. reflexivity.
Qed.

Lemma onChange_qualifies (engine : Engine) (editor : Editor)
      (fuel lastIndex : nat) (batch : Batch) :
  qualifies editor batch ->
  onChange engine editor fuel lastIndex batch
  = autoformat engine editor fuel lastIndex.
Proof.
  intros (Hb & Hc & Hs). unfold onChange.
  destruct (String.eqb_spec (batch_type batch) "transparent");
    [contradiction|].
  rewrite Hc. cbn [negb].
  apply single_character_typed_dec in Hs. now rewrite Hs.
Qed.

Lemma onChange_runs_only_if_qualifies (engine : Engine) (editor : Editor)
      (fuel lastIndex : nat) (batch : Batch) :
  qualifies editor batch
  \/ onChange engine editor fuel lastIndex batch
     = {| calls := []; completion := Returned tt;
          lastIndex_after := lastIndex |}.
Proof.
  unfold onChange, qualifies.
  destruct (String.eqb_spec (batch_type batch) "transparent");
    [now right|].
  destruct (isCollapsed (selection editor)); [|now right].
  cbn [negb].
  match goal with
  | |- context [if ?b then _ else _] => destruct b eqn:Hs
  end; [now right|].
  left. apply single_character_typed_dec in Hs. auto.
Qed.

(** C2.  The handler runs the test callback or enqueues a change only if
    the batch is not transparent, the selection is collapsed and the changes
    are exactly one insertion of a [$text] node of length 1; when any of the
    three fails it returns at once: it makes no call at all and leaves the
    shared expression untouched. *)
Theorem change_filter
        (engine : Engine) (editor : Editor) (fuel lastIndex : nat)
        (batch : Batch) :
  let run := onChange engine editor fuel lastIndex batch in
  (batch_type batch = "transparent"
   \/ isCollapsed (selection editor) = false
   \/ ~ single_character_typed (getChanges editor) ->
   calls run = []
   /\ completion run = Returned tt
   /\ lastIndex_after run = lastIndex)
  /\ (calls run <> [] ->
      batch_type batch <> "transparent"
      /\ isCollapsed (selection editor) = true
      /\ single_character_typed (getChanges editor)).
Proof.
  cbn zeta.
  destruct (onChange_runs_only_if_qualifies engine editor fuel lastIndex batch)
    as [(Hb & Hc & Hs) | ->].
  - split; [|now auto].
    intros [H | [H | H]];
      [contradiction | rewrite Hc in H; discriminate | contradiction].
  - split; [now auto|]. cbn [calls]. intros H. now contradiction H.
Qed.

Lemma change_filter_witness :
  calls (onChange (constructor (TestRegExp Pattern.italic)
                               (AttributeName "testAttribute"))
                  (typed "*foobar*" allowed_everywhere) 9 0 transparent_batch)
  = []
  /\ single_character_typed (getChanges (typed "*foobar*" allowed_everywhere)).
Proof.
  pose (engine := constructor (TestRegExp Pattern.italic)
                              (AttributeName "testAttribute")).
  pose (editor := typed "*foobar*" allowed_everywhere).
  split.
  - destruct (change_filter engine editor 9 0 transparent_batch) as [H _].
    apply H. left. reflexivity.
  - destruct (change_filter engine editor 9 0 default_batch) as [_ H].
    apply H. discriminate.
Defined.

(** ** Conversion of the test output *)

Lemma testOutputToRanges_app (block : Block) (l1 l2 : list Pair) :
  testOutputToRanges block (l1 ++ l2)
  = (testOutputToRanges block l1 ++ testOutputToRanges block l2)%list.
Proof.
  unfold testOutputToRanges. now rewrite filter_app, map_app.
Qed.

(** C8.  Wherever it stands in the array, a pair whose first or second
    entry is [undefined] contributes no range, and a pair [[a, b]]
    contributes exactly the range from position [a] to position [b] of the
    block, in its place among the ranges of the other pairs. *)
Theorem testOutputToRanges_filters_then_converts
        (block : Block) (before after : list Pair) (pair : Pair) :
  (at_index pair 0 = None \/ at_index pair 1 = None ->
   testOutputToRanges block (before ++ pair :: after)
   = testOutputToRanges block (before ++ after))
  /\ (forall a b,
         at_index pair 0 = Some a ->
         at_index pair 1 = Some b ->
         testOutputToRanges block (before ++ pair :: after)
         = (testOutputToRanges block before
              ++ createRange (createPositionAt block a)
                             (createPositionAt block b)
              :: testOutputToRanges block after)%list).
Proof.
  split.
  - intros H. rewrite !testOutputToRanges_app. f_equal.
    unfold testOutputToRanges at 1. cbn [filter].
    destruct H as [-> | H]; [reflexivity|].
    rewrite H. now destruct (at_index pair 0).
  - intros a b Ha Hb. rewrite testOutputToRanges_app. f_equal.
    unfold testOutputToRanges at 1. cbn [filter].
    rewrite Ha, Hb. cbn [map]. now rewrite Ha, Hb.
Qed.

Lemma testOutputToRanges_filters_then_converts_witness :
  testOutputToRanges (paragraph "*foobar*")
                     [[Some 0; Some 1]; []; [Some 7; Some 8]]
  = [span "*foobar*" 0 1; span "*foobar*" 7 8]
  /\ testOutputToRanges (paragraph "*foobar*")
                        [[Some 0; Some 1]; [Some 7; Some 8]; [None; Some 3]]
     = [span "*foobar*" 0 1; span "*foobar*" 7 8].
Proof.
  split.
  - destruct (testOutputToRanges_filters_then_converts
                (paragraph "*foobar*") [[Some 0; Some 1]] [[Some 7; Some 8]] [])
      as [H _].
    exact (H (or_introl eq_refl)).
  - destruct (testOutputToRanges_filters_then_converts
                (paragraph "*foobar*") [[Some 0; Some 1]] [[None; Some 3]]
                [Some 7; Some 8])
      as [_ H].
    exact (H 7 8 eq_refl eq_refl).
Defined.

(** ** After the filter *)

Section Qualifying.

Variables (engine : Engine) (editor : Editor) (fuel lastIndex : nat).
Variables (testOutput : TestOutput) (lastIndex' : nat).

Hypothesis test_returned :
  testCallback engine fuel (leadingText editor) lastIndex
  = (Returned testOutput, lastIndex').

Lemma autoformat_aborts :
  testOutputToRanges (caretBlock editor) (format testOutput) = []
  \/ testOutputToRanges (caretBlock editor) (remove testOutput) = [] ->
  autoformat engine editor fuel lastIndex
  = {| calls := [CallTest (leadingText editor)];
       completion := Returned tt;
       lastIndex_after := lastIndex' |}.
Proof.
  intros H. unfold autoformat. rewrite test_returned.
  destruct H as [-> | ->]; [reflexivity|].
  now destruct (testOutputToRanges _ (format testOutput)).
Qed.

Lemma autoformat_applies :
  testOutputToRanges (caretBlock editor) (format testOutput) <> [] ->
  testOutputToRanges (caretBlock editor) (remove testOutput) <> [] ->
  autoformat engine editor fuel lastIndex
  = {| calls :=
         CallTest (leadingText editor) :: CallEnqueueChange
           :: enqueued engine editor
                (testOutputToRanges (caretBlock editor) (format testOutput))
                (testOutputToRanges (caretBlock editor) (remove testOutput));
       completion := Returned tt;
       lastIndex_after := lastIndex' |}.
Proof.
  intros Hf Hr. unfold autoformat. rewrite test_returned.
  destruct (testOutputToRanges _ (format testOutput)); [contradiction|].
  destruct (testOutputToRanges _ (remove testOutput)); [contradiction|].
  reflexivity.
Qed.

End Qualifying.

Lemma removed_map_CallRemove (ranges : list Range) :
  removed (map CallRemove ranges) = ranges.
Proof.
  induction ranges as [|range ranges IH]; [reflexivity|].
  cbn. unfold removed in IH. now rewrite IH.
Qed.

Lemma transactions_map_CallRemove (ranges : list Range) :
  transactions (map CallRemove ranges) = O.
Proof.
  unfold transactions.
  induction ranges as [|range ranges IH]; [reflexivity | exact IH].
Qed.

Lemma descending_rev_append (l : list Z) :
  forall acc,
    ascending l = true ->
    descending acc = true ->
    (forall a b, hd_error l = Some a -> hd_error acc = Some b -> b <= a) ->
    descending (rev_append l acc) = true.
Proof.
  induction l as [|a l IH]; intros acc Hl Hacc Hhd; [exact Hacc|].
  cbn [rev_append]. apply IH.
  - destruct l; [reflexivity|].
    cbn [ascending] in Hl. now apply andb_prop in Hl.
  - destruct acc as [|b acc]; [reflexivity|].
    cbn [descending]. apply andb_true_intro. split; [|exact Hacc].
    apply Z.leb_le. now apply Hhd.
  - intros a' b Ha' [= <-].
    destruct l as [|x l]; [discriminate|]. injection Ha' as ->.
    cbn [ascending] in Hl. apply andb_prop in Hl as [Hle _].
    now apply Z.leb_le.
Qed.

Lemma ascending_rev_descending (l : list Z) :
  ascending l = true -> descending (rev l) = true.
Proof.
  intros H. rewrite rev_alt.
  apply descending_rev_append; [exact H | reflexivity | discriminate].
Qed.

(** C3.  On a qualifying event, when the format ranges or the remove ranges
    are empty after the conversion, the handler stops after the test: it
    enqueues no change, does not call the format callback and removes
    nothing. *)
Theorem empty_ranges_abort
        (engine : Engine) (editor : Editor) (fuel lastIndex : nat)
        (batch : Batch) (testOutput : TestOutput) (lastIndex' : nat) :
  qualifies editor batch ->
  testCallback engine fuel (leadingText editor) lastIndex
  = (Returned testOutput, lastIndex') ->
  testOutputToRanges (caretBlock editor) (format testOutput) = []
  \/ testOutputToRanges (caretBlock editor) (remove testOutput) = [] ->
  let run := onChange engine editor fuel lastIndex batch in
  transactions (calls run) = O
  /\ existsb is_format (calls run) = false
  /\ removed (calls run) = []
  /\ completion run = Returned tt.
Proof.
  intros Hq Htest Hempty. cbn zeta.
  rewrite (onChange_qualifies _ _ _ _ _ Hq).
  rewrite (autoformat_aborts _ _ _ _ _ _ Htest Hempty).
  now repeat split.
Qed.

Lemma empty_ranges_abort_witness :
  transactions
    (calls (onChange
              (constructor
                 (TestFunction (fun _ => {| remove := [[]]; format := [] |}))
                 (FormatFunction (fun _ => [])))
              (typed "* " allowed_everywhere) 1 0 default_batch))
  = O.
Proof.
  pose (engine := constructor
                    (TestFunction (fun _ => {| remove := [[]]; format := [] |}))
                    (FormatFunction (fun _ => []))).
  pose (editor := typed "* " allowed_everywhere).
  assert (Hq : qualifies editor default_batch).
  { split; [discriminate|]. split; [reflexivity|].
    eexists. repeat split; reflexivity. }
  apply (empty_ranges_abort engine editor 1 0 default_batch
           {| remove := [[]]; format := [] |} 0 Hq eq_refl
           (or_introl eq_refl)).
Defined.

(** C7.  On a single-character insertion whose test yields no usable match
    (no format range or no remove range), the handler enqueues no change and
    the document, whatever the writer's calls mean, is the document the
    insertion left. *)
Theorem no_match_leaves_document
        {Doc : Type} (apply : Doc -> Writer.call -> Doc) (doc : Doc)
        (engine : Engine) (editor : Editor) (fuel lastIndex : nat)
        (batch : Batch) (testOutput : TestOutput) (lastIndex' : nat) :
  qualifies editor batch ->
  testCallback engine fuel (leadingText editor) lastIndex
  = (Returned testOutput, lastIndex') ->
  testOutputToRanges (caretBlock editor) (format testOutput) = []
  \/ testOutputToRanges (caretBlock editor) (remove testOutput) = [] ->
  let run := onChange engine editor fuel lastIndex batch in
  document_after apply doc (calls run) = doc
  /\ transactions (calls run) = O.
Proof.
  intros Hq Htest Hempty. cbn zeta.
  rewrite (onChange_qualifies _ _ _ _ _ Hq).
  rewrite (autoformat_aborts _ _ _ _ _ _ Htest Hempty).
  now split.
Qed.

Lemma no_match_leaves_document_witness :
  let run := onChange (constructor (TestRegExp Pattern.italic)
                                   (AttributeName "testAttribute"))
                      (typed "foobar*" allowed_everywhere) 9 0 default_batch in
  document_after (fun doc w => w :: doc) [] (calls run) = []
  /\ transactions (calls run) = O.
Proof.
  pose (engine := constructor (TestRegExp Pattern.italic)
                              (AttributeName "testAttribute")).
  pose (editor := typed "foobar*" allowed_everywhere).
  assert (Hq : qualifies editor default_batch).
  { split; [discriminate|]. split; [reflexivity|].
    eexists. repeat split; reflexivity. }
  apply (no_match_leaves_document (fun doc w => w :: doc) []
           engine editor 9 0 default_batch
           {| remove := []; format := [] |} 0 Hq eq_refl (or_introl eq_refl)).
Defined.

Lemma removed_enqueued (engine : Engine) (editor : Editor)
      (text : string) (rangesToFormat rangesToRemove : list Range) :
  removed (CallTest text :: CallEnqueueChange
             :: enqueued engine editor rangesToFormat rangesToRemove)
  = rev rangesToRemove.
Proof.
  unfold enqueued. cbn. fold (removed (map CallRemove (rev rangesToRemove))).
  apply removed_map_CallRemove.
Qed.

Lemma transactions_enqueued (engine : Engine) (editor : Editor)
      (text : string) (rangesToFormat rangesToRemove : list Range) :
  transactions (CallTest text :: CallEnqueueChange
                  :: enqueued engine editor rangesToFormat rangesToRemove)
  = 1%nat.
Proof.
  unfold enqueued, transactions. cbn. f_equal.
  apply transactions_map_CallRemove.
Qed.

(** C4 (as amended).  On a qualifying event with format and remove ranges,
    the handler deletes the remove ranges in the reverse of their order in
    the test function's remove array; that is the order of descending start
    offsets whenever the array lists its pairs by ascending start offset. *)
Theorem removal_reverses_the_array
        (engine : Engine) (editor : Editor) (fuel lastIndex : nat)
        (batch : Batch) (testOutput : TestOutput) (lastIndex' : nat) :
  qualifies editor batch ->
  testCallback engine fuel (leadingText editor) lastIndex
  = (Returned testOutput, lastIndex') ->
  testOutputToRanges (caretBlock editor) (format testOutput) <> [] ->
  testOutputToRanges (caretBlock editor) (remove testOutput) <> [] ->
  let run := onChange engine editor fuel lastIndex batch in
  let rangesToRemove :=
    testOutputToRanges (caretBlock editor) (remove testOutput) in
  removed (calls run) = rev rangesToRemove
  /\ (ascending (start_offsets rangesToRemove) = true ->
      descending (start_offsets (removed (calls run))) = true).
Proof.
  intros Hq Htest Hf Hr. cbn zeta.
  rewrite (onChange_qualifies _ _ _ _ _ Hq).
  rewrite (autoformat_applies _ _ _ _ _ _ Htest Hf Hr).
  cbn [calls]. rewrite removed_enqueued. split; [reflexivity|].
  intros Hasc. unfold start_offsets. rewrite map_rev.
  now apply ascending_rev_descending.
Qed.

Lemma removal_reverses_the_array_witness :
  removed
    (calls (onChange (constructor (TestRegExp Pattern.italic)
                                  (AttributeName "testAttribute"))
                     (typed "*foobar*" allowed_everywhere) 9 0 default_batch))
  = [span "*foobar*" 7 8; span "*foobar*" 0 1].
Proof.
  pose (engine := constructor (TestRegExp Pattern.italic)
                              (AttributeName "testAttribute")).
  pose (editor := typed "*foobar*" allowed_everywhere).
  assert (Hq : qualifies editor default_batch).
  { split; [discriminate|]. split; [reflexivity|].
    eexists. repeat split; reflexivity. }
  assert (Htest : testCallback engine 9 (leadingText editor) 0
                  = (Returned {| remove := [[Some 0; Some 1]; [Some 7; Some 8]];
                                 format := [[Some 1; Some 7]] |}, O))
    by reflexivity.
  destruct (removal_reverses_the_array engine editor 9 0 default_batch
              _ _ Hq Htest) as [H _]; [discriminate | discriminate |].
  exact H.
Defined.

(** C4, as stated, fails: for a test function that lists a later pair first
    the handler deletes the earlier range first; the order of deletion is
    ascending, not descending. *)
Lemma removal_not_sorted :
  let run :=
    onChange (constructor
                (TestFunction
                   (fun _ => {| remove := [[Some 5; Some 6]; [Some 0; Some 1]];
                                format := [[Some 1; Some 5]] |}))
                (AttributeName "testAttribute"))
             (typed "*bold*" allowed_everywhere) 1 0 default_batch in
  removed (calls run) = [span "*bold*" 0 1; span "*bold*" 5 6]
  /\ descending (start_offsets (removed (calls run))) = false.
Proof. split; reflexivity. Qed.

(** C5 (as amended).  On a qualifying event with format and remove ranges,
    when the schema narrows the format ranges to no valid range at all, the
    handler still enqueues its change, still calls the format callback, with
    the empty list of ranges, and still deletes every remove range. *)
Theorem no_valid_range_still_removes
        (engine : Engine) (editor : Editor) (fuel lastIndex : nat)
        (batch : Batch) (testOutput : TestOutput) (lastIndex' : nat) :
  qualifies editor batch ->
  testCallback engine fuel (leadingText editor) lastIndex
  = (Returned testOutput, lastIndex') ->
  testOutputToRanges (caretBlock editor) (format testOutput) <> [] ->
  testOutputToRanges (caretBlock editor) (remove testOutput) <> [] ->
  getValidRanges editor
    (testOutputToRanges (caretBlock editor) (format testOutput))
    (attributeKey engine) = [] ->
  let run := onChange engine editor fuel lastIndex batch in
  transactions (calls run) = 1%nat
  /\ In (CallFormat [] (formatCallback engine [])) (calls run)
  /\ removed (calls run)
     = rev (testOutputToRanges (caretBlock editor) (remove testOutput))
  /\ removed (calls run) <> [].
Proof.
  intros Hq Htest Hf Hr Hvalid. cbn zeta.
  rewrite (onChange_qualifies _ _ _ _ _ Hq).
  rewrite (autoformat_applies _ _ _ _ _ _ Htest Hf Hr).
  cbn [calls]. rewrite removed_enqueued, transactions_enqueued.
  repeat split.
  - unfold enqueued. rewrite Hvalid. cbn. auto.
  - intros H. apply Hr. apply (f_equal (@rev Range)) in H.
    now rewrite rev_involutive in H.
Qed.

Lemma no_valid_range_still_removes_witness :
  removed
    (calls (onChange (constructor (TestRegExp Pattern.italic)
                                  (AttributeName "testAttribute"))
                     (typed "*foobar*" allowed_nowhere) 9 0 default_batch))
  <> [].
Proof.
  pose (engine := constructor (TestRegExp Pattern.italic)
                              (AttributeName "testAttribute")).
  pose (editor := typed "*foobar*" allowed_nowhere).
  assert (Hq : qualifies editor default_batch).
  { split; [discriminate|]. split; [reflexivity|].
    eexists. repeat split; reflexivity. }
  assert (Htest : testCallback engine 9 (leadingText editor) 0
                  = (Returned {| remove := [[Some 0; Some 1]; [Some 7; Some 8]];
                                 format := [[Some 1; Some 7]] |}, O))
    by reflexivity.
  destruct (no_valid_range_still_removes engine editor 9 0 default_batch
              _ _ Hq Htest) as (_ & _ & _ & H);
    [discriminate | discriminate | reflexivity | exact H].
Defined.

(** C5, as stated, fails: with a schema that allows the attribute nowhere
    the valid ranges are empty, and the handler still enqueues a change and
    deletes both delimiters. *)
Lemma delimiters_removed_without_format :
  let editor := typed "*foobar*" allowed_nowhere in
  let run :=
    onChange (constructor (TestRegExp Pattern.italic)
                          (AttributeName "testAttribute"))
             editor 9 0 default_batch in
  getValidRanges editor [span "*foobar*" 1 7] (Some "testAttribute") = []
  /\ calls run
     = [CallTest "*foobar*";
        CallEnqueueChange;
        CallGetValidRanges [span "*foobar*" 1 7] (Some "testAttribute");
        CallFormat [] [Writer.removeSelectionAttribute (Some "testAttribute")];
        CallRemove (span "*foobar*" 7 8);
        CallRemove (span "*foobar*" 0 1)]
  /\ removed (calls run) = [span "*foobar*" 7 8; span "*foobar*" 0 1].
Proof. repeat split; reflexivity. Qed.

(** ** The key of the schema query *)

(** C10.  On a qualifying event with format and remove ranges the handler
    always asks the schema to narrow the format ranges, with the attribute
    name given at construction as the key, and hands the answer to the format
    callback.  When the formatting target is a callback there is no
    attribute name: the key of the query is [undefined], and the callback
    receives the ranges the schema returns for that key. *)
Theorem narrowing_keyed_on_attribute_name
        (test : TestSource) (target : FormatTarget)
        (editor : Editor) (fuel lastIndex : nat)
        (batch : Batch) (testOutput : TestOutput) (lastIndex' : nat) :
  let engine := constructor test target in
  let rangesToFormat :=
    testOutputToRanges (caretBlock editor) (format testOutput) in
  let rangesToRemove :=
    testOutputToRanges (caretBlock editor) (remove testOutput) in
  qualifies editor batch ->
  testCallback engine fuel (leadingText editor) lastIndex
  = (Returned testOutput, lastIndex') ->
  rangesToFormat <> [] ->
  rangesToRemove <> [] ->
  let key :=
    match target with
    | AttributeName name => Some name
    | FormatFunction _ => None
    end in
  let validRanges := getValidRanges editor rangesToFormat key in
  let writes :=
    match target with
    | AttributeName name =>
        (map (Writer.setAttribute (Some name) true) validRanges
             ++ [Writer.removeSelectionAttribute (Some name)])%list
    | FormatFunction f => f validRanges
    end in
  calls (onChange engine editor fuel lastIndex batch)
  = (CallTest (leadingText editor)
       :: CallEnqueueChange
       :: CallGetValidRanges rangesToFormat key
       :: CallFormat validRanges writes
       :: map CallRemove (rev rangesToRemove))%list.
Proof.
  cbn zeta. intros Hq Htest Hf Hr.
  rewrite (onChange_qualifies _ _ _ _ _ Hq).
  rewrite (autoformat_applies _ _ _ _ _ _ Htest Hf Hr).
  now destruct target.
Qed.

Lemma narrowing_keyed_on_attribute_name_witness :
  calls (onChange
           (constructor (TestRegExp Pattern.italic)
                        (FormatFunction
                           (map (Writer.setAttribute (Some "bold") true))))
           (typed "*foobar*" allowed_everywhere) 9 0 default_batch)
  = [CallTest "*foobar*";
     CallEnqueueChange;
     CallGetValidRanges [span "*foobar*" 1 7] None;
     CallFormat [span "*foobar*" 1 7]
                [Writer.setAttribute (Some "bold") true (span "*foobar*" 1 7)];
     CallRemove (span "*foobar*" 7 8);
     CallRemove (span "*foobar*" 0 1)].
Proof.
  pose (editor := typed "*foobar*" allowed_everywhere).
  assert (Hq : qualifies editor default_batch).
  { split; [discriminate|]. split; [reflexivity|].
    eexists. repeat split; reflexivity. }
  apply (narrowing_keyed_on_attribute_name
           (TestRegExp Pattern.italic)
           (FormatFunction (map (Writer.setAttribute (Some "bold") true)))
           editor 9 0 default_batch
           {| remove := [[Some 0; Some 1]; [Some 7; Some 8]];
              format := [[Some 1; Some 7]] |} 0 Hq eq_refl);
    discriminate.
Defined.

(** * Further properties *)

(** ** What the default test callback collects *)

Lemma Bracketed_app (remove1 format1 remove2 format2 : list Pair) :
  Bracketed remove1 format1 ->
  Bracketed remove2 format2 ->
  Bracketed (remove1 ++ remove2) (format1 ++ format2).
Proof.
  induction 1 as [|s a b e rm fm Hs Ha Hb _ IH]; intros H2; [exact H2|].
  cbn [app]. constructor; auto.
Qed.

Lemma len_nonneg (s : string) : 0 <= len s.
Proof. unfold len. lia. Qed.

Lemma scan_bracketed (regExp : RegExp) (text : string) :
  forall fuel lastIndex rm fm output final,
    Bracketed rm fm ->
    scan regExp text fuel lastIndex rm fm = (Returned output, final) ->
    Bracketed (remove output) (format output).
Proof.
  induction fuel as [|fuel IH]; intros li rm fm out final Hb H;
    [discriminate|].
  cbn [scan] in H.
  destruct (exec regExp li text) as [[result|] li'].
  - destruct (result_length result <? 4)%nat.
    + now injection H as <- _.
    + destruct (group result 1) as [leftDel|]; [|discriminate].
      destruct (group result 2) as [content|]; [|discriminate].
      destruct (group result 3) as [rightDel|]; [|discriminate].
      apply IH in H; [exact H|].
      apply Bracketed_app; [exact Hb|].
      pose proof (len_nonneg leftDel). pose proof (len_nonneg content).
      pose proof (len_nonneg rightDel).
      constructor; try lia. constructor.
  - now injection H as <- _.
Qed.

(** X1.  Whatever the expression and the text, when the default test
    callback returns, its remove array holds exactly two pairs for every
    format pair, in the same order: the pair that ends where the format pair
    starts and the pair that starts where the format pair ends; every bound
    is a number and every pair has its start before its end. *)
Theorem default_test_output_bracketed
        (regExp : RegExp) (fuel : nat) (text : string) (lastIndex : nat)
        (output : TestOutput) (final : nat) :
  defaultTestCallback regExp fuel text lastIndex = (Returned output, final) ->
  Bracketed (remove output) (format output).
Proof.
  intros H. eapply scan_bracketed; [constructor | exact H].
Qed.

Lemma default_test_output_bracketed_witness :
  Bracketed [[Some 0; Some 1]; [Some 2; Some 3]; [Some 4; Some 5];
             [Some 6; Some 7]]
            [[Some 1; Some 2]; [Some 5; Some 6]].
Proof.
  apply (default_test_output_bracketed Pattern.italic 9 "*a* *b*" 0
           {| remove := [[Some 0; Some 1]; [Some 2; Some 3]; [Some 4; Some 5];
                         [Some 6; Some 7]];
              format := [[Some 1; Some 2]; [Some 5; Some 6]] |} 0).
  reflexivity.
Defined.

Lemma Bracketed_ranges (block : Block) (rm fm : list Pair) :
  Bracketed rm fm ->
  List.length (testOutputToRanges block rm)
  = (2 * List.length (testOutputToRanges block fm))%nat.
Proof.
  induction 1 as [|s a b e rm fm _ _ _ _ IH]; [reflexivity|].
  unfold testOutputToRanges in *. cbn in *. lia.
Qed.

Lemma queried_map_CallRemove (ranges : list Range) :
  queried (map CallRemove ranges) = [].
Proof.
  induction ranges as [|range ranges IH]; [reflexivity | exact IH].
Qed.

(** X2.  With the default test callback the handler deletes exactly two
    ranges for every range it asks the schema about and formats, on every
    event: it never removes a delimiter without a span to format, nor
    formats a span without removing its two delimiters. *)
Theorem default_removes_two_per_format
        (regExp : RegExp) (target : FormatTarget) (editor : Editor)
        (fuel lastIndex : nat) (batch : Batch) :
  let run := onChange (constructor (TestRegExp regExp) target)
                      editor fuel lastIndex batch in
  List.length (removed (calls run))
  = (2 * List.length (queried (calls run)))%nat.
Proof.
  cbn zeta. unfold onChange.
  destruct (String.eqb _ _); [reflexivity|].
  destruct (negb _); [reflexivity|].
  destruct (_ || _); [reflexivity|].
  unfold autoformat. cbn [testCallback constructor].
  destruct (defaultTestCallback _ _ _ _) as [[out| |] li'] eqn:Htest;
    try reflexivity.
  apply (scan_bracketed _ _ _ _ _ _ _ _ Bracketed_nil) in Htest.
  pose proof (Bracketed_ranges (caretBlock editor) _ _ Htest) as Hlen.
  match goal with |- context [if ?b then _ else _] => destruct b end;
    [reflexivity|].
  cbn [calls]. rewrite removed_enqueued, length_rev, Hlen.
  unfold enqueued. cbn [app queried flat_map].
  fold (queried (map CallRemove
                     (rev (testOutputToRanges (caretBlock editor)
                                              (remove out))))).
  rewrite queried_map_CallRemove, !app_nil_r. reflexivity.
Qed.

(** ** When the loop of the default test callback does not end *)

Lemma scan_stuck (regExp : RegExp) (text : string) (lastIndex : nat)
      (result : MatchArray) (remove1 format1 : list Pair) :
  exec regExp lastIndex text = (Some result, lastIndex) ->
  Emits result remove1 format1 ->
  forall fuel rm fm,
    fst (scan regExp text fuel lastIndex rm fm) = Exhausted.
Proof.
  intros Hexec Hemit. induction fuel as [|fuel IH]; intros rm fm;
    [reflexivity|].
  rewrite (scan_step_emits _ _ _ _ _ _ _ _ _ _ Hexec Hemit). apply IH.
Qed.



(** X4.  A match that leaves [lastIndex] where it was (an empty match of a
    global expression) with its three groups captured keeps the default test
    callback in its loop in the same way: no number of iterations is
    enough. *)
Theorem empty_match_never_returns
        (regExp : RegExp) (text : string) (lastIndex : nat)
        (result : MatchArray) (remove1 format1 : list Pair) :
  exec regExp lastIndex text = (Some result, lastIndex) ->
  Emits result remove1 format1 ->
  forall fuel,
    fst (defaultTestCallback regExp fuel text lastIndex) = Exhausted.
Proof.
  intros Hexec Hemit fuel. unfold defaultTestCallback.
  now apply (scan_stuck _ _ _ result remove1 format1).
Qed.

Lemma empty_match_never_returns_witness :
  fst (defaultTestCallback empty_groups 50 "abc" 0) = Exhausted.
Proof.
  apply (empty_match_never_returns empty_groups "abc" 0
           {| index := 0; full := "";
              groups := [Some ""; Some ""; Some ""] |}
           [[Some 0; Some 0]; [Some 0; Some 0]] [[Some 0; Some 0]]).
  - reflexivity.
  - apply (Emits_triple _ "" "" "" 0); reflexivity.
Defined.

(** X5.  When the default test callback returns for a global expression
    with at least three capture groups, it has run [exec] until [null]: the
    shared expression is left with [lastIndex] 0, ready for the next
    event. *)
Theorem returned_resets_lastIndex
        (regExp : RegExp) (fuel : nat) (text : string) (lastIndex : nat)
        (output : TestOutput) (final : nat) :
  re_global regExp = true ->
  (3 <= re_ngroups regExp)%nat ->
  defaultTestCallback regExp fuel text lastIndex = (Returned output, final) ->
  final = O.
Proof.
  intros Hg Hn H.
  apply scan_returned_settles in H as [H | [H | H]];
    [exact H | congruence | lia].
Qed.

Lemma returned_resets_lastIndex_witness :
  snd (defaultTestCallback Pattern.italic 9 "*a* *b*" 3) = O.
Proof.
  assert (Hn : (3 <= re_ngroups Pattern.italic)%nat) by (simpl; lia).
  apply (returned_resets_lastIndex Pattern.italic 9 "*a* *b*" 3
           {| remove := [[Some 4; Some 5]; [Some 6; Some 7]];
              format := [[Some 5; Some 6]] |}
           _ eq_refl Hn).
  reflexivity.
Defined.

(** ** Where the default ranges lie *)

Lemma ascending_app (l1 l2 : list Z) :
  ascending l1 = true ->
  ascending l2 = true ->
  (forall x y, In x l1 -> In y l2 -> x <= y) ->
  ascending (l1 ++ l2) = true.
Proof.
  induction l1 as [|a l1 IH]; intros H1 H2 Hle; [exact H2|].
  destruct l1 as [|a' l1].
  - destruct l2 as [|b l2]; [reflexivity|].
    cbn [app ascending]. apply andb_true_intro. split; [|exact H2].
    apply Z.leb_le. apply Hle; now left.
  - cbn [ascending] in H1. apply andb_prop in H1 as [Ha H1].
    change (((a <=? a') && ascending ((a' :: l1) ++ l2))%bool = true).
    rewrite Ha. apply IH; [exact H1 | exact H2 |].
    intros x y Hx Hy. apply Hle; [now right | exact Hy].
Qed.

Lemma exec_global_match (regExp : RegExp) (text : string)
      (lastIndex lastIndex' : nat) (result : MatchArray) :
  re_global regExp = true ->
  exec regExp lastIndex text = (Some result, lastIndex') ->
  (lastIndex <= String.length text)%nat
  /\ exists captures,
      re_search regExp text lastIndex
      = Some (index result, full result, captures)
      /\ groups result = map captures (seq 1 (re_ngroups regExp))
      /\ lastIndex' = (index result + String.length (full result))%nat.
Proof.
  intros Hg. unfold exec. rewrite Hg.
  destruct (String.length text <? lastIndex)%nat eqn:Hlen; [discriminate|].
  apply Nat.ltb_ge in Hlen.
  destruct (re_search regExp text lastIndex) as [[[j matched] captures]|];
    [|discriminate].
  intros [= <- <-]. split; [exact Hlen|]. now exists captures.
Qed.

Lemma first_three_groups (result : MatchArray)
      (captures : nat -> option string) (n : nat) :
  groups result = map captures (seq 1 n) ->
  (result_length result <? 4)%nat = false ->
  group result 1 = captures 1%nat
  /\ group result 2 = captures 2%nat
  /\ group result 3 = captures 3%nat.
Proof.
  unfold result_length, group. intros -> Hlen.
  apply Nat.ltb_ge in Hlen. rewrite length_map, length_seq in Hlen.
  destruct n as [|[|[|n]]]; try lia. now cbn.
Qed.

Section DefaultRanges.

Variables (regExp : RegExp) (text : string) (block : Block).

Hypothesis regExp_global : re_global regExp = true.
Hypothesis regExp_fits : fits regExp text.

Lemma scan_ranges :
  forall fuel lastIndex rm fm output final,
    Forall (upto text lastIndex) (testOutputToRanges block rm) ->
    Forall (upto text lastIndex) (testOutputToRanges block fm) ->
    ascending (start_offsets (testOutputToRanges block rm)) = true ->
    scan regExp text fuel lastIndex rm fm = (Returned output, final) ->
    Forall (inside text) (testOutputToRanges block (remove output))
    /\ Forall (inside text) (testOutputToRanges block (format output))
    /\ ascending (start_offsets (testOutputToRanges block (remove output)))
       = true.
Proof.
  induction fuel as [|fuel IH]; intros li rm fm out final Hrm Hfm Hasc H;
    [discriminate|].
  cbn [scan] in H.
  assert (Hdone : forall l, Forall (upto text li) l -> Forall (inside text) l)
    by (intros l Hl; eapply Forall_impl; [|exact Hl]; now intros r [Hr _]).
  destruct (exec regExp li text) as [[result|] li'] eqn:Hexec.
  - destruct (result_length result <? 4)%nat eqn:Hlen.
    { injection H as <- _. cbn [remove format]. auto. }
    apply (exec_global_match _ _ _ _ _ regExp_global) in Hexec
      as (Hli & captures & Hsearch & Hgroups & ->).
    destruct (first_three_groups _ _ _ Hgroups Hlen) as (H1 & H2 & H3).
    destruct (group result 1) as [leftDel|]; [|discriminate].
    destruct (group result 2) as [content|]; [|discriminate].
    destruct (group result 3) as [rightDel|]; [|discriminate].
    destruct (regExp_fits _ _ _ _ leftDel content rightDel Hli Hsearch)
      as (Hij & Hend & Hfound); auto.
    rewrite len_found in H. unfold len in H.
    apply IH in H; [exact H | | |].
    + rewrite testOutputToRanges_app. apply Forall_app. split.
      * eapply Forall_impl; [|exact Hrm].
        intros r [Hr Hb]. split; [exact Hr | lia].
      * unfold testOutputToRanges. cbn.
        repeat constructor; unfold len; cbn; lia.
    + rewrite testOutputToRanges_app. apply Forall_app. split.
      * eapply Forall_impl; [|exact Hfm].
        intros r [Hr Hb]. split; [exact Hr | lia].
      * unfold testOutputToRanges. cbn.
        repeat constructor; unfold len; cbn; lia.
    + rewrite testOutputToRanges_app. unfold start_offsets.
      rewrite map_app. apply ascending_app; [exact Hasc | |].
      * unfold testOutputToRanges. cbn.
        apply andb_true_intro. split; [apply Z.leb_le; lia | reflexivity].
      * intros x y Hx Hy. apply in_map_iff in Hx as (r & <- & Hr).
        rewrite Forall_forall in Hrm. destruct (Hrm r Hr) as [Hin Hb].
        destruct Hin as (_ & Hse & _).
        unfold testOutputToRanges in Hy. cbn in Hy.
        destruct Hy as [<- | [<- | []]]; lia.
  - injection H as <- _. cbn [remove format]. auto.
Qed.

Lemma default_test_ranges (fuel lastIndex : nat) (output : TestOutput)
      (final : nat) :
  defaultTestCallback regExp fuel text lastIndex = (Returned output, final) ->
  Forall (inside text) (testOutputToRanges block (remove output))
  /\ Forall (inside text) (testOutputToRanges block (format output))
  /\ ascending (start_offsets (testOutputToRanges block (remove output)))
     = true.
Proof.
  intros H. eapply scan_ranges; [| | |exact H]; constructor.
Qed.

End DefaultRanges.

Lemma italic_fits_short : fits Pattern.italic "*a*".
Proof.
  intros i j matched captures g1 g2 g3 Hi Hs H1 H2 H3.
  do 4 (destruct i as [|i];
        [vm_compute in Hs; try discriminate;
         injection Hs as <- <- <-;
         vm_compute in H1, H2, H3;
         injection H1 as <-; injection H2 as <-; injection H3 as <-;
         simpl; lia|]).
  simpl in Hi. lia.
Qed.

Lemma typed_qualifies (text : string)
      (schema : list Range -> option string -> list Range) :
  qualifies (typed text schema) default_batch.
Proof.
  split; [discriminate|]. split; [reflexivity|].
  eexists. repeat split; reflexivity.
Qed.



(** X7.  Under the same conditions every range the handler removes and
    every range it asks the schema about lies inside the text it scanned,
    that is between the start of the block and the caret, with its start
    before its end. *)
Theorem default_ranges_inside_text
        (regExp : RegExp) (target : FormatTarget) (editor : Editor)
        (fuel lastIndex : nat) (batch : Batch) :
  re_global regExp = true ->
  fits regExp (leadingText editor) ->
  let run := onChange (constructor (TestRegExp regExp) target)
                      editor fuel lastIndex batch in
  Forall (inside (leadingText editor)) (removed (calls run))
  /\ Forall (inside (leadingText editor)) (queried (calls run)).
Proof.
  intros Hg Hfits. cbn zeta. unfold onChange.
  destruct (String.eqb _ _); [now split|].
  destruct (negb _); [now split|].
  destruct (_ || _); [now split|].
  unfold autoformat. cbn [testCallback constructor].
  destruct (defaultTestCallback _ _ _ _) as [[out| |] li'] eqn:Htest;
    try (now split).
  apply (default_test_ranges _ _ (caretBlock editor) Hg Hfits) in Htest
    as (Hrm & Hfm & _).
  match goal with |- context [if ?b then _ else _] => destruct b end;
    [now split|].
  cbn [calls]. rewrite removed_enqueued. split.
  - now apply Forall_rev.
  - unfold enqueued. cbn [app queried flat_map].
    fold (queried (map CallRemove
                       (rev (testOutputToRanges (caretBlock editor)
                                                (remove out))))).
    now rewrite queried_map_CallRemove, !app_nil_r.
Qed.

Lemma default_ranges_inside_text_witness :
  Forall (inside "*a*") [span "*a*" 2 3; span "*a*" 0 1]
  /\ Forall (inside "*a*") [span "*a*" 1 2].
Proof.
  apply (default_ranges_inside_text Pattern.italic
           (AttributeName "testAttribute") (typed "*a*" allowed_everywhere)
           5 0 default_batch eq_refl italic_fits_short).
Defined.

(** ** The shape of every run of the handler *)

Lemma onChange_shape (engine : Engine) (editor : Editor)
      (fuel lastIndex : nat) (batch : Batch) :
  let run := onChange engine editor fuel lastIndex batch in
  let block := caretBlock editor in
  let text := leadingText editor in
  (calls run = [] /\ completion run = Returned tt)
  \/ (calls run = [CallTest text]
      /\ qualifies editor batch
      /\ completion run
         = match fst (testCallback engine fuel text lastIndex) with
           | Returned _ => Returned tt
           | Thrown e => Thrown e
           | Exhausted => Exhausted
           end)
  \/ (exists output final,
         testCallback engine fuel text lastIndex = (Returned output, final)
         /\ testOutputToRanges block (format output) <> []
         /\ testOutputToRanges block (remove output) <> []
         /\ calls run
            = CallTest text :: CallEnqueueChange
                :: enqueued engine editor
                     (testOutputToRanges block (format output))
                     (testOutputToRanges block (remove output))
         /\ completion run = Returned tt).
Proof.
  cbn zeta.
  destruct (onChange_runs_only_if_qualifies engine editor fuel lastIndex batch)
    as [Hq | ->]; [|now left].
  right. rewrite (onChange_qualifies _ _ _ _ _ Hq). unfold autoformat.
  destruct (testCallback engine fuel (leadingText editor) lastIndex)
    as [[out| |] li'] eqn:Htest; [|now left|now left].
  destruct (testOutputToRanges (caretBlock editor) (format out)) as [|f fs]
    eqn:Hf; [now left|].
  destruct (testOutputToRanges (caretBlock editor) (remove out)) as [|r rs]
    eqn:Hr; [now left|].
  right. exists out, li'. rewrite Hf, Hr. now repeat split.
Qed.

Lemma written_map_CallRemove (ranges : list Range) :
  written (map CallRemove ranges) = [].
Proof.
  induction ranges as [|range ranges IH]; [reflexivity | exact IH].
Qed.

Lemma enqueued_parts (engine : Engine) (editor : Editor) (text : string)
      (rangesToFormat rangesToRemove : list Range) :
  let cs := CallTest text :: CallEnqueueChange
              :: enqueued engine editor rangesToFormat rangesToRemove in
  queried cs = rangesToFormat
  /\ written cs
     = formatCallback engine
         (getValidRanges editor rangesToFormat (attributeKey engine))
  /\ existsb is_format cs = true.
Proof.
  cbn zeta. unfold enqueued. cbn [app queried written flat_map existsb].
  fold (queried (map CallRemove (rev rangesToRemove))).
  fold (written (map CallRemove (rev rangesToRemove))).
  rewrite queried_map_CallRemove, written_map_CallRemove, !app_nil_r.
  now repeat split.
Qed.

Lemma rev_not_nil {A : Type} (l : list A) : l <> [] -> rev l <> [].
Proof.
  intros H Hr. apply H. apply (f_equal (@rev A)) in Hr.
  now rewrite rev_involutive in Hr.
Qed.

(** X8.  On every event the handler enqueues at most one change block, and
    it formats and removes only inside it: without a change block nothing is
    asked of the schema, the format callback is not called and nothing is
    removed; with one, the format callback is called, at least one range is
    submitted and at least one removed, and the handler completes. *)
Theorem effects_only_in_one_change_block
        (engine : Engine) (editor : Editor) (fuel lastIndex : nat)
        (batch : Batch) :
  let run := onChange engine editor fuel lastIndex batch in
  (transactions (calls run) <= 1)%nat
  /\ (transactions (calls run) = O ->
      queried (calls run) = []
      /\ existsb is_format (calls run) = false
      /\ written (calls run) = []
      /\ removed (calls run) = [])
  /\ (transactions (calls run) = 1%nat ->
      queried (calls run) <> []
      /\ existsb is_format (calls run) = true
      /\ removed (calls run) <> []
      /\ completion run = Returned tt).
Proof.
  cbn zeta.
  destruct (onChange_shape engine editor fuel lastIndex batch)
    as [[-> _] | [[-> _] | (out & li' & _ & Hf & Hr & -> & Hc)]].
  - cbn. repeat split; auto; discriminate.
  - cbn. repeat split; auto; discriminate.
  - rewrite transactions_enqueued, removed_enqueued.
    destruct (enqueued_parts engine editor (leadingText editor)
                (testOutputToRanges (caretBlock editor) (format out))
                (testOutputToRanges (caretBlock editor) (remove out)))
      as (-> & _ & ->).
    repeat split; auto; try discriminate. now apply rev_not_nil.
Qed.

Lemma effects_only_in_one_change_block_witness :
  removed
    (calls (onChange (constructor (TestRegExp Pattern.italic)
                                  (AttributeName "testAttribute"))
                     (typed "*a*" allowed_everywhere) 5 0 default_batch))
  <> []
  /\ written
       (calls (onChange (constructor (TestRegExp Pattern.italic)
                                     (AttributeName "testAttribute"))
                        (typed "a*" allowed_everywhere) 5 0 default_batch))
     = [].
Proof.
  split.
  - destruct (effects_only_in_one_change_block
                (constructor (TestRegExp Pattern.italic)
                             (AttributeName "testAttribute"))
                (typed "*a*" allowed_everywhere) 5 0 default_batch)
      as (_ & _ & H).
    destruct (H eq_refl) as (_ & _ & Hr & _). exact Hr.
  - destruct (effects_only_in_one_change_block
                (constructor (TestRegExp Pattern.italic)
                             (AttributeName "testAttribute"))
                (typed "a*" allowed_everywhere) 5 0 default_batch)
      as (_ & H & _).
    destruct (H eq_refl) as (_ & _ & Hw & _). exact Hw.
Defined.

(** X9.  The handler itself never raises an error: an error comes out of it
    only when the test callback raised it on a qualifying event, and then
    the handler has called nothing but the test callback; the document is
    as the insertion left it. *)
Theorem only_the_test_raises
        (engine : Engine) (editor : Editor) (fuel lastIndex : nat)
        (batch : Batch) (e : Error) :
  let run := onChange engine editor fuel lastIndex batch in
  completion run = Thrown e ->
  qualifies editor batch
  /\ fst (testCallback engine fuel (leadingText editor) lastIndex) = Thrown e
  /\ calls run = [CallTest (leadingText editor)].
Proof.
  cbn zeta. intros H.
  destruct (onChange_shape engine editor fuel lastIndex batch)
    as [[_ Hc] | [(Hcalls & Hq & Hc) | (out & li' & _ & _ & _ & _ & Hc)]];
    rewrite Hc in H; try discriminate.
  split; [exact Hq|]. split; [|exact Hcalls].
  destruct (fst (testCallback engine fuel (leadingText editor) lastIndex));
    congruence.
Qed.

Lemma only_the_test_raises_witness :
  calls (onChange (constructor (TestRegExp Pattern.optional_open)
                               (AttributeName "testAttribute"))
                  (typed "a*" allowed_everywhere) 5 0 default_batch)
  = [CallTest "a*"].
Proof.
  destruct (only_the_test_raises
              (constructor (TestRegExp Pattern.optional_open)
                           (AttributeName "testAttribute"))
              (typed "a*" allowed_everywhere) 5 0 default_batch TypeError
              eq_refl) as (_ & _ & H).
  exact H.
Defined.

(** ** The default format callback *)

(** X10.  With an attribute name as the formatting target, the handler sets
    the attribute only to [true], only under that name, and only on ranges
    the schema returned for the ranges submitted under that name; the format
    step removes no content. *)
Theorem attribute_only_on_valid_ranges
        (test : TestSource) (key : string) (editor : Editor)
        (fuel lastIndex : nat) (batch : Batch) :
  let run := onChange (constructor test (AttributeName key))
                      editor fuel lastIndex batch in
  (forall k v range,
      In (Writer.setAttribute k v range) (written (calls run)) ->
      k = Some key /\ v = true
      /\ In range (getValidRanges editor (queried (calls run)) (Some key)))
  /\ (forall range, ~ In (Writer.remove range) (written (calls run))).
Proof.
  cbn zeta.
  destruct (onChange_shape (constructor test (AttributeName key))
                           editor fuel lastIndex batch)
    as [[-> _] | [[-> _] | (out & li' & _ & _ & _ & -> & _)]];
    try (cbn; split; [intros k v range [] | intros range []]).
  destruct (enqueued_parts (constructor test (AttributeName key)) editor
              (leadingText editor)
              (testOutputToRanges (caretBlock editor) (format out))
              (testOutputToRanges (caretBlock editor) (remove out)))
    as (-> & -> & _).
  cbn [formatCallback attributeKey constructor]. split.
  - intros k v range Hin. apply in_app_or in Hin as [Hin | [Hin | []]];
      [|discriminate].
    apply in_map_iff in Hin as (r & [= <- <- <-] & Hr). auto.
  - intros range Hin. apply in_app_or in Hin as [Hin | [Hin | []]];
      [|discriminate].
    apply in_map_iff in Hin as (r & Hr & _). discriminate.
Qed.

Lemma attribute_only_on_valid_ranges_witness :
  In (span "*a*" 1 2)
     (getValidRanges (typed "*a*" allowed_everywhere)
        (queried
           (calls (onChange (constructor (TestRegExp Pattern.italic)
                                         (AttributeName "testAttribute"))
                            (typed "*a*" allowed_everywhere)
                            5 0 default_batch)))
        (Some "testAttribute")).
Proof.
  destruct (attribute_only_on_valid_ranges
              (TestRegExp Pattern.italic) "testAttribute"
              (typed "*a*" allowed_everywhere) 5 0 default_batch)
    as [H _].
  apply (H (Some "testAttribute") true (span "*a*" 1 2)).
  left. reflexivity.
Defined.

(** X11.  With an attribute name as the formatting target, every change
    block the handler enqueues clears that attribute from the selection
    exactly once, also when the schema left no range to format: the number
    of [removeSelectionAttribute] calls of a run is its number of change
    blocks. *)
Theorem selection_attribute_cleared_once
        (test : TestSource) (key : string) (editor : Editor)
        (fuel lastIndex : nat) (batch : Batch) :
  let run := onChange (constructor test (AttributeName key))
                      editor fuel lastIndex batch in
  List.length (filter is_clear (written (calls run)))
  = transactions (calls run)
  /\ (forall k, In (Writer.removeSelectionAttribute k) (written (calls run)) ->
                k = Some key).
Proof.
  cbn zeta.
  destruct (onChange_shape (constructor test (AttributeName key))
                           editor fuel lastIndex batch)
    as [[-> _] | [[-> _] | (out & li' & _ & _ & _ & -> & _)]];
    try (cbn; split; [reflexivity | intros k []]).
  rewrite transactions_enqueued.
  destruct (enqueued_parts (constructor test (AttributeName key)) editor
              (leadingText editor)
              (testOutputToRanges (caretBlock editor) (format out))
              (testOutputToRanges (caretBlock editor) (remove out)))
    as (_ & -> & _).
  cbn [formatCallback attributeKey constructor]. split.
  - rewrite filter_app, length_app. cbn.
    replace (filter is_clear (map _ _)) with (@nil Writer.call);
      [reflexivity|].
    generalize (getValidRanges editor
                  (testOutputToRanges (caretBlock editor) (format out))
                  (Some key)).
    induction l as [|r l IH]; [reflexivity | exact IH].
  - intros k Hin. apply in_app_or in Hin as [Hin | [Hin | []]].
    + apply in_map_iff in Hin as (r & Hr & _). discriminate.
    + now injection Hin as <-.
Qed.

Lemma selection_attribute_cleared_once_witness :
  List.length
    (filter is_clear
       (written
          (calls (onChange (constructor (TestRegExp Pattern.italic)
                                        (AttributeName "testAttribute"))
                           (typed "*a*" allowed_nowhere) 5 0 default_batch))))
  = 1%nat.
Proof.
  destruct (selection_attribute_cleared_once
              (TestRegExp Pattern.italic) "testAttribute"
              (typed "*a*" allowed_nowhere) 5 0 default_batch)
    as [H _].
  rewrite H. reflexivity.
Defined.

(** ** Every range is a range of the caret's block *)

Lemma testOutputToRanges_within (block : Block) (arrays : list Pair) :
  Forall (within block) (testOutputToRanges block arrays).
Proof.
  unfold testOutputToRanges. apply Forall_forall. intros range Hin.
  apply in_map_iff in Hin as (array & <- & _). now split.
Qed.

(** X12.  Whatever the test callback returns, every range the handler
    submits to the schema and every range it removes starts and ends in the
    block of the caret: the handler never touches another block. *)
Theorem ranges_stay_in_caret_block
        (engine : Engine) (editor : Editor) (fuel lastIndex : nat)
        (batch : Batch) :
  let run := onChange engine editor fuel lastIndex batch in
  Forall (within (caretBlock editor)) (queried (calls run))
  /\ Forall (within (caretBlock editor)) (removed (calls run)).
Proof.
  cbn zeta.
  destruct (onChange_shape engine editor fuel lastIndex batch)
    as [[-> _] | [[-> _] | (out & li' & _ & _ & _ & -> & _)]];
    try (now split).
  rewrite removed_enqueued.
  destruct (enqueued_parts engine editor (leadingText editor)
              (testOutputToRanges (caretBlock editor) (format out))
              (testOutputToRanges (caretBlock editor) (remove out)))
    as (-> & _ & _).
  split; [|apply Forall_rev]; apply testOutputToRanges_within.
Qed.

(** ** The text that is scanned *)

Lemma string_app_assoc (a b c : string) : (a ++ b) ++ c = a ++ (b ++ c).
Proof.
  induction a as [|x a IH]; simpl; [reflexivity | now rewrite IH].
Qed.

Lemma string_app_nil_r (a : string) : a ++ "" = a.
Proof.
  induction a as [|x a IH]; simpl; [reflexivity | now rewrite IH].
Qed.

Lemma getText_fold (children : list Node) :
  forall a,
    fold_left
      (fun a b =>
         match b with
         | TextNode data => a ++ data
         | InlineElement _ => a ++ "undefined"
         end)
      children a
    = a ++ getText (block_of children).
Proof.
  unfold getText, block_of. cbn [getChildren].
  induction children as [|child children IH]; intros a; cbn [fold_left].
  - now rewrite string_app_nil_r.
  - destruct child as [data|element]; rewrite IH;
      [rewrite (IH ("" ++ data)) | rewrite (IH ("" ++ "undefined"))];
      cbn [append]; now rewrite string_app_assoc.
Qed.

(** X13.  [getText] reads the children from left to right and only their
    data: the text of a block is the text of any first part of its children
    followed by the text of the rest, and does not depend on the name of the
    block. *)
Theorem getText_of_children
        (name : string) (children1 children2 : list Node) :
  getText {| block_name := name; getChildren := children1 ++ children2 |}
  = getText (block_of children1) ++ getText (block_of children2).
Proof.
  unfold getText at 1. cbn [getChildren].
  rewrite fold_left_app, !getText_fold. reflexivity.
Qed.

(** X14.  A child that is not a text node has no [data]: [getText] puts the
    nine characters of [undefined] in its place, while text nodes give their
    data as it is. *)
Theorem getText_inline_element
        (name : string) (before after : list Node) (element : string) :
  getText {| block_name := name;
             getChildren := before ++ InlineElement element :: after |}
  = getText (block_of before) ++ "undefined" ++ getText (block_of after)
  /\ forall data,
      getText {| block_name := name;
                 getChildren := before ++ TextNode data :: after |}
      = getText (block_of before) ++ data ++ getText (block_of after).
Proof.
  split; [|intros data]; unfold getText at 1; cbn [getChildren];
    rewrite fold_left_app; cbn [fold_left];
    rewrite !getText_fold, string_app_assoc; reflexivity.
Qed.

Lemma substring_prefix (s : string) :
  forall n, exists rest, s = substring 0 n s ++ rest.
Proof.
  induction s as [|c s IH]; intros [|n]; simpl.
  - now exists "".
  - now exists "".
  - now exists (String c s).
  - destruct (IH n) as [rest Hrest]. exists rest. now rewrite <- Hrest.
Qed.

(** X15.  The text given to the test callback is the start of the text of
    the caret's block, whatever the offset of the caret; for an offset
    between 0 and the length of that text it is exactly the first [offset]
    characters. *)
Theorem leadingText_is_prefix (editor : Editor) :
  (exists rest, getText (caretBlock editor) = leadingText editor ++ rest)
  /\ (0 <= offset (focus (selection editor))
           <= len (getText (caretBlock editor)) ->
      len (leadingText editor) = offset (focus (selection editor))).
Proof.
  unfold leadingText, slice0. split.
  - destruct (_ <? 0); apply substring_prefix.
  - intros [H0 H1].
    destruct (Z.ltb_spec (offset (focus (selection editor))) 0); [lia|].
    unfold len in *. rewrite length_substring; lia.
Qed.

Lemma leadingText_is_prefix_witness :
  len (leadingText (typed_after_inline "ab" "*c*")) = 6
  /\ leadingText (typed_after_inline "ab" "*c*") = "abunde".
Proof.
  split; [|reflexivity].
  destruct (leadingText_is_prefix (typed_after_inline "ab" "*c*")) as [_ H].
  apply H. vm_compute. split; discriminate.
Defined.

Lemma substring_app_left (a b : string) (n : nat) :
  substring 0 (String.length a + n) (a ++ b) = a ++ substring 0 n b.
Proof.
  induction a as [|c a IH]; simpl; [reflexivity | now rewrite IH].
Qed.

Lemma substring_app_short (a b : string) :
  forall n, (n <= String.length a)%nat ->
            substring 0 n (a ++ b) = substring 0 n a.
Proof.
  induction a as [|c a IH]; intros [|n] Hn; simpl in *;
    try reflexivity; try lia.
  - now destruct b.
  - rewrite IH; [reflexivity | lia].
Qed.

(** X16.  When an inline element stands before the caret, the offset of the
    caret counts it as one while [getText] counts nine characters for it, so
    the scanned text stops short of the caret: with fewer than nine
    characters typed after the element, the test callback sees the text
    before the element and a piece of the word [undefined], and nothing of
    what was typed after it. *)
Theorem leadingText_after_inline_element (before after : string) :
  (String.length after < 9)%nat ->
  leadingText (typed_after_inline before after)
  = before ++ substring 0 (S (String.length after)) "undefined".
Proof.
  intros Hlen. unfold leadingText, typed_after_inline, caretBlock, slice0.
  cbn [selection focus parent offset].
  destruct (Z.ltb_spec (len before + 1 + len after) 0) as [H|_];
    [unfold len in H; lia|].
  replace (Z.to_nat (len before + 1 + len after))
    with (String.length before + S (String.length after))%nat
    by (unfold len; lia).
  replace (getText _) with (before ++ ("undefined" ++ after))
    by (unfold getText, block_of; cbn [getChildren fold_left append];
        now rewrite string_app_assoc).
  rewrite substring_app_left. f_equal.
  apply substring_app_short. simpl. lia.
Qed.

Lemma leadingText_after_inline_element_witness :
  leadingText (typed_after_inline "ab" "*c*") = "abunde".
Proof.
  apply (leadingText_after_inline_element "ab" "*c*"). simpl. lia.
Defined.

(** ** When the loop of the default test callback ends *)

(** X17.  For a global expression whose matches are never empty, [exec]
    moves [lastIndex] forward at every match, so the loop of the default
    test callback ends after at most one iteration per character left in the
    text and one more: it returns or raises, from whatever [lastIndex] it
    starts. *)
Theorem default_test_ends
        (regExp : RegExp) (text : string) (fuel lastIndex : nat) :
  re_global regExp = true ->
  advances regExp text ->
  (S (String.length text) - lastIndex < fuel)%nat ->
  fst (defaultTestCallback regExp fuel text lastIndex) <> Exhausted.
Proof.
  intros Hg Hadv Hfuel. unfold defaultTestCallback.
  now apply scan_finishes.
Qed.

Lemma default_test_ends_witness :
  fst (defaultTestCallback Pattern.italic 9 "*a* *b*" 0) <> Exhausted.
Proof.
  apply (default_test_ends Pattern.italic "*a* *b*" 9 0 eq_refl).
  - apply pattern_advances. reflexivity.
  - simpl. lia.
Defined.
